(** * SocketChatServer: a shallow embedding of [server.js]

    The server keeps two JavaScript [Map]s, [clients] (username -> socket)
    and [socketData] (socket -> per-connection record), and reacts to
    socket events.  Strings are sequences of UTF-16 code units, the two
    maps are insertion-ordered association lists, and every handler is a
    computation in a small state/output/exception monad: the state is the
    pair of maps, the output is the list of socket effects in the order the
    handler performs them, and the exception is an uncaught [TypeError].

    Node runs one listener at a time, so a run of the server is a sequence
    of events (a connection, a chunk of bytes, the end or an error of a
    socket, a firing of an idle timer, the interrupt signal, an error of
    the listening server), each handled to its end.  An event carries the reading of [Date.now()] its handler
    sees.  Events are allowed on any socket at any time, also after the
    server has begun to shut down; this only adds runs.  Console logging
    is not modelled. *)

From Stdlib Require Import List NArith ZArith Arith Bool Lia String Ascii.
From Stdlib.Strings Require Import Byte.
Import ListNotations.

Set Implicit Arguments.

(* ================================================================== *)
(** ** JavaScript strings *)

Module Js.
Local Open Scope N_scope.

(** A string is its sequence of UTF-16 code units. *)
Definition jsstring := list N.

Definition lit (s : string) : jsstring :=
  map N_of_ascii (list_ascii_of_string s).

Fixpoint str_eqb (a b : jsstring) : bool :=
  match a, b with
  | [], [] => true
  | x :: a', y :: b' => N.eqb x y && str_eqb a' b'
  | _, _ => false
  end.

(** Truthiness of a string value: only the empty string is falsy. *)
Definition truthy (s : jsstring) : bool :=
  match s with [] => false | _ :: _ => true end.

Definition LF : N := 10.
Definition SP : N := 32.

(** ECMAScript [WhiteSpace] and [LineTerminator] code units, the set
    removed by [String.prototype.trim]. *)
Definition isWhiteSpace (c : N) : bool :=
  ((9 <=? c) && (c <=? 13)) || (c =? 32) || (c =? 160) || (c =? 5760)
  || ((8192 <=? c) && (c <=? 8202)) || (c =? 8232) || (c =? 8233)
  || (c =? 8239) || (c =? 8287) || (c =? 12288) || (c =? 65279).

Fixpoint trimStart (s : jsstring) : jsstring :=
  match s with
  | [] => []
  | c :: r => if isWhiteSpace c then trimStart r else s
  end.

Definition trimEnd (s : jsstring) : jsstring := rev (trimStart (rev s)).

Definition trim (s : jsstring) : jsstring := trimEnd (trimStart s).

(** [s.split(sep)] for a one-unit separator: every occurrence of [sep]
    ends a part, so [n] separators always give [n + 1] parts. *)
Fixpoint split (sep : N) (s : jsstring) : list jsstring :=
  match s with
  | [] => [[]]
  | c :: r =>
      if N.eqb c sep then [] :: split sep r
      else match split sep r with
           | [] => [[c]]
           | p :: ps => (c :: p) :: ps
           end
  end.

(** [parts.join(sep)]. *)
Fixpoint join (sep : N) (parts : list jsstring) : jsstring :=
  match parts with
  | [] => []
  | [p] => p
  | p :: ps => p ++ sep :: join sep ps
  end.

(** [s.indexOf(c)], with [None] for [-1]. *)
Fixpoint indexOf (c : N) (s : jsstring) : option nat :=
  match s with
  | [] => None
  | x :: r => if N.eqb x c then Some 0%nat
              else match indexOf c r with
                   | None => None
                   | Some i => Some (S i)
                   end
  end.

(** [parts.slice(n)]. *)
Definition slice (n : nat) (parts : list jsstring) : list jsstring :=
  skipn n parts.

(** [/^[a-zA-Z0-9_-]+$/.test(s)]: without the [m] flag the anchors are the
    two ends of the input. *)
Definition inClass (c : N) : bool :=
  ((97 <=? c) && (c <=? 122)) || ((65 <=? c) && (c <=? 90))
  || ((48 <=? c) && (c <=? 57)) || (c =? 95) || (c =? 45).

Definition testUsernameRegex (s : jsstring) : bool :=
  match s with
  | [] => false
  | _ :: _ => forallb inClass s
  end.

(** *** [Buffer.prototype.toString('utf8')]

    Node decodes a chunk on its own, replacing every maximal ill-formed
    subsequence by U+FFFD, and stores code points above U+FFFF as a
    surrogate pair. *)

Inductive decoder : Type :=
| Idle
| Pending (cp : N) (needed : nat) (lo hi : N).

Definition REPLACEMENT : N := 65533.

Definition lead (b : N) : list N * decoder :=
  if b <=? 127 then ([b], Idle)
  else if (194 <=? b) && (b <=? 223) then
    ([], Pending (N.land b 31) 1%nat 128 191)
  else if (224 <=? b) && (b <=? 239) then
    ([], Pending (N.land b 15) 2%nat
           (if b =? 224 then 160 else 128) (if b =? 237 then 159 else 191))
  else if (240 <=? b) && (b <=? 244) then
    ([], Pending (N.land b 7) 3%nat
           (if b =? 240 then 144 else 128) (if b =? 244 then 143 else 191))
  else ([REPLACEMENT], Idle).

Fixpoint codePoints (st : decoder) (bs : list N) : list N :=
  match bs with
  | [] => match st with Idle => [] | Pending _ _ _ _ => [REPLACEMENT] end
  | b :: r =>
      match st with
      | Idle => let '(out, st') := lead b in out ++ codePoints st' r
      | Pending cp needed lo hi =>
          if (lo <=? b) && (b <=? hi) then
            let cp' := N.lor (N.shiftl cp 6) (N.land b 63) in
            match needed with
            | S (S n) => codePoints (Pending cp' (S n) 128 191) r
            | _ => cp' :: codePoints Idle r
            end
          else
            let '(out, st') := lead b in
            REPLACEMENT :: out ++ codePoints st' r
      end
  end.

Definition utf16 (cp : N) : list N :=
  if cp <? 65536 then [cp]
  else [55296 + N.shiftr (cp - 65536) 10; 56320 + N.land (cp - 65536) 1023].

Definition toString_utf8 (chunk : list byte) : jsstring :=
  flat_map utf16 (codePoints Idle (map Byte.to_N chunk)).

(** ASCII-only case conversion.  It agrees with
    [String.prototype.toUpperCase] on strings of ASCII code units; the
    server model below takes the full conversion as a parameter. *)
Definition asciiUpper (s : jsstring) : jsstring :=
  map (fun c => if (97 <=? c) && (c <=? 122) then c - 32 else c) s.

End Js.

Import Js.

(* ================================================================== *)
(** ** JavaScript [Map]: an insertion-ordered association list *)

Module JsMap.
Section Ops.
Variables K V : Type.
Variable eqb : K -> K -> bool.

Definition t := list (K * V).

Fixpoint get (m : t) (k : K) : option V :=
  match m with
  | [] => None
  | (k', v) :: r => if eqb k' k then Some v else get r k
  end.

Definition has (m : t) (k : K) : bool :=
  match get m k with Some _ => true | None => false end.

(** An existing key keeps its position, a new key goes last. *)
Fixpoint set (m : t) (k : K) (v : V) : t :=
  match m with
  | [] => [(k, v)]
  | (k', v') :: r => if eqb k' k then (k', v) :: r else (k', v') :: set r k v
  end.

Fixpoint delete (m : t) (k : K) : t :=
  match m with
  | [] => []
  | (k', v) :: r => if eqb k' k then r else (k', v) :: delete r k
  end.

Definition keys (m : t) : list K := map fst m.
Definition entries (m : t) : list (K * V) := m.
End Ops.
End JsMap.

(* ================================================================== *)
(** ** Server state, effects and the handler monad *)

(** A socket is an object; its identity is the number of the connection
    that created it. *)
Definition socket := nat.

(** The record stored by [handleConnection]; [username] is [None] for
    [null]. *)
Record SessionData : Type := mkData {
  username : option jsstring;
  lastActivity : Z;
  buffer : jsstring
}.

Record World : Type := mkWorld {
  clients : JsMap.t jsstring socket;
  socketData : JsMap.t socket SessionData;
  nextSocket : socket
}.

Definition initial : World := mkWorld [] [] 0.

(** What a handler does to the outside: the bytes given to
    [socket.write], [socket.destroy()], [server.close] and
    [process.exit]. *)
Inductive effect : Type :=
| Write (to : socket) (data : jsstring)
| Destroy (s : socket)
| CloseServer
| Exit (code : Z).

Definition M (A : Type) : Type := World -> option (A * World * list effect).

Definition ret {A} (a : A) : M A := fun w => Some (a, w, []).

Definition bind {A B} (c : M A) (k : A -> M B) : M B := fun w =>
  match c w with
  | None => None
  | Some (a, w1, o1) =>
      match k a w1 with
      | None => None
      | Some (b, w2, o2) => Some (b, w2, o1 ++ o2)
      end
  end.

(** An uncaught exception. *)
Definition throw {A} : M A := fun _ => None.

Definition getW : M World := fun w => Some (w, w, []).
Definition putW (w' : World) : M unit := fun _ => Some (tt, w', []).
Definition emit (e : effect) : M unit := fun w => Some (tt, w, [e]).

Declare Scope js_scope.
Delimit Scope js_scope with js.
Notation "x <- c ;; k" := (bind c (fun x => k))
  (at level 61, c at next level, right associativity) : js_scope.
Notation "c ;; k" := (bind c (fun _ => k))
  (at level 61, right associativity) : js_scope.
Local Open Scope js_scope.

Fixpoint forEach {A} (f : A -> M unit) (l : list A) : M unit :=
  match l with
  | [] => ret tt
  | a :: r => f a ;; forEach f r
  end.

Definition getData (w : World) (s : socket) : option SessionData :=
  JsMap.get Nat.eqb (socketData w) s.

Definition setData (w : World) (s : socket) (d : SessionData) : World :=
  mkWorld (clients w) (JsMap.set Nat.eqb (socketData w) s d) (nextSocket w).

(** Truthiness of [data.username]. *)
Definition loggedIn (d : SessionData) : bool :=
  match username d with
  | Some u => truthy u
  | None => false
  end.

Definition withClients (w : World) (c : JsMap.t jsstring socket) : World :=
  mkWorld c (socketData w) (nextSocket w).

Definition withSocketData (w : World) (d : JsMap.t socket SessionData)
  : World :=
  mkWorld (clients w) d (nextSocket w).

(** The value a template literal prints for [data.username]. *)
Definition usernameText (d : SessionData) : jsstring :=
  match username d with
  | Some u => u
  | None => lit "null"
  end.

(* ================================================================== *)
(** ** The functions of [server.js] *)

(** [socket.write(message + '\n')]; an exception of [write] is caught and
    logged. *)
Definition sendToSocket (s : socket) (message : jsstring) : M unit :=
  emit (Write s (message ++ [LF])).

(** [socket !== excludeSocket], where [None] is the default [null]. *)
Definition isNot (s : socket) (excludeSocket : option socket) : bool :=
  match excludeSocket with
  | None => true
  | Some x => negb (Nat.eqb s x)
  end.

Definition broadcast (message : jsstring) (excludeSocket : option socket)
  : M unit :=
  w <- getW ;;
  forEach (fun e : jsstring * socket =>
             if isNot (snd e) excludeSocket
             then sendToSocket (snd e) message
             else ret tt)
          (JsMap.entries (clients w)).

Definition sendPrivateMessage (fromUsername toUsername text : jsstring)
  : M bool :=
  w <- getW ;;
  match JsMap.get str_eqb (clients w) toUsername with
  | None => ret false
  | Some recipientSocket =>
      sendToSocket recipientSocket
        (lit "DM " ++ fromUsername ++ lit " " ++ text) ;;
      ret true
  end.

(** [now] stands for the value of [Date.now()]. *)
Definition updateActivity (s : socket) (now : Z) : M unit :=
  w <- getW ;;
  match getData w s with
  | Some data => putW (setData w s (mkData (username data) now (buffer data)))
  | None => ret tt
  end.

Definition removeUser (s : socket) (notify : bool) : M unit :=
  w <- getW ;;
  match getData w s with
  | Some data =>
      if loggedIn data then
        let u := usernameText data in
        putW (withClients w (JsMap.delete str_eqb (clients w) u)) ;;
        if notify
        then broadcast (lit "INFO " ++ u ++ lit " disconnected") None
        else ret tt
      else ret tt
  | None => ret tt
  end ;;
  w' <- getW ;;
  putW (withSocketData w' (JsMap.delete Nat.eqb (socketData w') s)).

Definition isValidUsername (uname : jsstring) : bool :=
  truthy uname
  && (0 <? List.length uname)
  && (List.length uname <=? 20)
  && testUsernameRegex uname.

Definition handleLogin (s : socket) (uname : jsstring) : M unit :=
  w <- getW ;;
  match getData w s with
  | None => throw
  | Some data =>
      if loggedIn data then sendToSocket s (lit "ERR already-logged-in")
      else if negb (isValidUsername uname)
      then sendToSocket s (lit "ERR invalid-username")
      else if JsMap.has str_eqb (clients w) uname
      then sendToSocket s (lit "ERR username-taken")
      else
        putW (mkWorld (JsMap.set str_eqb (clients w) uname s)
                (JsMap.set Nat.eqb (socketData w) s
                   (mkData (Some uname) (lastActivity data) (buffer data)))
                (nextSocket w)) ;;
        sendToSocket s (lit "OK") ;;
        broadcast (lit "INFO " ++ uname ++ lit " joined") (Some s)
  end.

Definition handleMessage (s : socket) (text : jsstring) : M unit :=
  w <- getW ;;
  match getData w s with
  | None => throw
  | Some data =>
      if negb (loggedIn data) then sendToSocket s (lit "ERR not-logged-in")
      else if negb (truthy text) || (List.length (trim text) =? 0)
      then sendToSocket s (lit "ERR empty-message")
      else broadcast (lit "MSG " ++ usernameText data ++ lit " " ++ trim text)
             None
  end.

Definition handleWho (s : socket) : M unit :=
  w <- getW ;;
  match getData w s with
  | None => throw
  | Some data =>
      if negb (loggedIn data) then sendToSocket s (lit "ERR not-logged-in")
      else
        let usernames := JsMap.keys (clients w) in
        if List.length usernames =? 0 then sendToSocket s (lit "INFO no-users")
        else forEach (fun u => sendToSocket s (lit "USER " ++ u)) usernames
  end.

Definition handleDirectMessage (s : socket) (targetUsername text : jsstring)
  : M unit :=
  w <- getW ;;
  match getData w s with
  | None => throw
  | Some data =>
      if negb (loggedIn data) then sendToSocket s (lit "ERR not-logged-in")
      else if negb (truthy targetUsername) || negb (truthy text)
      then sendToSocket s (lit "ERR invalid-dm-format")
      else if str_eqb targetUsername (usernameText data)
      then sendToSocket s (lit "ERR cannot-dm-self")
      else
        success <- sendPrivateMessage (usernameText data) targetUsername
                     (trim text) ;;
        if success then sendToSocket s (lit "DM-SENT " ++ targetUsername)
        else sendToSocket s (lit "ERR user-not-found")
  end.

Definition handlePing (s : socket) : M unit := sendToSocket s (lit "PONG").

Definition IDLE_TIMEOUT_MS : Z := 60000.

Section Protocol.

(** [String.prototype.toUpperCase], the Unicode case conversion of the
    runtime. *)
Variable toUpperCase : jsstring -> jsstring.

Definition processCommand (s : socket) (line : jsstring) (now : Z)
  : M unit :=
  let trimmedLine := trim line in
  if negb (truthy trimmedLine) then ret tt
  else
    updateActivity s now ;;
    let parts := split SP trimmedLine in
    let command := toUpperCase (nth 0 parts []) in
    if str_eqb command (lit "LOGIN") then
      if List.length parts <? 2 then sendToSocket s (lit "ERR missing-username")
      else handleLogin s (nth 1 parts [])
    else if str_eqb command (lit "MSG") then
      if List.length parts <? 2 then sendToSocket s (lit "ERR empty-message")
      else handleMessage s (join SP (slice 1 parts))
    else if str_eqb command (lit "WHO") then handleWho s
    else if str_eqb command (lit "DM") then
      if List.length parts <? 3
      then sendToSocket s (lit "ERR invalid-dm-format")
      else handleDirectMessage s (nth 1 parts []) (join SP (slice 2 parts))
    else if str_eqb command (lit "PING") then handlePing s
    else sendToSocket s (lit "ERR unknown-command: " ++ command).

(** [handleConnection]: the record stored for a new socket.  The
    listeners and the interval it installs are the events below. *)
Definition handleConnection (s : socket) (now : Z) : M unit :=
  w <- getW ;;
  putW (setData w s (mkData None now [])).

(** The [while] loop of the ['data'] listener.  [data] is the record of
    the socket, which [processCommand] never removes; every round
    shortens the buffer, so a fuel above its length is never used up. *)
Fixpoint drainLines (fuel : nat) (s : socket) (now : Z) : M unit :=
  match fuel with
  | O => throw
  | S fuel' =>
      w <- getW ;;
      match getData w s with
      | None => throw
      | Some data =>
          match indexOf LF (buffer data) with
          | None => ret tt
          | Some newlineIndex =>
              let line := firstn newlineIndex (buffer data) in
              putW (setData w s
                      (mkData (username data) (lastActivity data)
                         (skipn (S newlineIndex) (buffer data)))) ;;
              processCommand s line now ;;
              drainLines fuel' s now
          end
      end
  end.

Definition onData (s : socket) (chunk : list byte) (now : Z) : M unit :=
  w <- getW ;;
  match getData w s with
  | None => ret tt
  | Some data =>
      let buf := buffer data ++ toString_utf8 chunk in
      putW (setData w s (mkData (username data) (lastActivity data) buf)) ;;
      drainLines (S (List.length buf)) s now ;;
      w' <- getW ;;
      match getData w' s with
      | None => throw
      | Some data' =>
          if 4096 <? List.length (buffer data') then
            sendToSocket s (lit "ERR message-too-long") ;;
            putW (setData w' s
                    (mkData (username data') (lastActivity data') []))
          else ret tt
      end
  end.

Definition onEnd (s : socket) : M unit := removeUser s true.

Definition onError (s : socket) : M unit := removeUser s false.

(** One firing of the 10 s interval of a connection. *)
Definition onInterval (s : socket) (now : Z) : M unit :=
  w <- getW ;;
  match getData w s with
  | None => ret tt
  | Some data =>
      let idleTime := (now - lastActivity data)%Z in
      if (IDLE_TIMEOUT_MS <? idleTime)%Z then
        sendToSocket s (lit "ERR idle-timeout") ;;
        removeUser s true ;;
        emit (Destroy s)
      else ret tt
  end.

(** The [SIGINT] handler; [process.exit(0)] runs in the callback of
    [server.close]. *)
Definition onSigint : M unit :=
  broadcast (lit "INFO server-shutting-down") None ;;
  w <- getW ;;
  forEach (fun s => emit (Destroy s)) (JsMap.keys (socketData w)) ;;
  emit CloseServer ;;
  emit (Exit 0).

(** The ['error'] listener of the listening server: a port already in
    use ends the process with code 1, any other error is only logged.
    [code] is [err.code], [None] when the error has none. *)
Definition onServerError (code : option jsstring) : M unit :=
  match code with
  | Some c => if str_eqb c (lit "EADDRINUSE") then emit (Exit 1) else ret tt
  | None => ret tt
  end.

(** The events the process reacts to, each with the reading of the
    clock where its handler asks for one.  A new connection gets a socket
    no earlier connection had.  [Sigint] is the only signal the process
    listens for. *)
Inductive event : Type :=
| Connect (now : Z)
| Data (s : socket) (chunk : list byte) (now : Z)
| End (s : socket)
| Error (s : socket)
| Interval (s : socket) (now : Z)
| Sigint
| ServerError (code : option jsstring).

Definition onConnect (now : Z) : M unit :=
  w <- getW ;;
  let s := nextSocket w in
  putW (mkWorld (clients w) (socketData w) (S s)) ;;
  handleConnection s now.

Definition handle (e : event) : M unit :=
  match e with
  | Connect now => onConnect now
  | Data s chunk now => onData s chunk now
  | End s => onEnd s
  | Error s => onError s
  | Interval s now => onInterval s now
  | Sigint => onSigint
  | ServerError code => onServerError code
  end.

Definition run (es : list event) : M unit := forEach handle es.

Inductive reachable : World -> Prop :=
| reach_initial : reachable initial
| reach_step w e w' out :
    reachable w -> handle e w = Some (tt, w', out) -> reachable w'.

End Protocol.

Unset Implicit Arguments.

(* ================================================================== *)
(** ** Notions used in the statements *)

(** The sockets a broadcast reaches, in the order of [clients.entries()],
    and the writes it performs. *)
Definition recipients (excludeSocket : option socket)
  (cl : JsMap.t jsstring socket) : list socket :=
  map snd (filter (fun e => isNot (snd e) excludeSocket) cl).

(** One write of [message] and its newline per socket. *)
Definition deliver (message : jsstring) (to : list socket) : list effect :=
  map (fun t => Write t (message ++ [LF])) to.

(** The username index, the state and the announcement left by
    [removeUser]. *)
Definition releasedClients (w : World) (s : socket)
  : JsMap.t jsstring socket :=
  match getData w s with
  | Some d => if loggedIn d
              then JsMap.delete str_eqb (clients w) (usernameText d)
              else clients w
  | None => clients w
  end.

Definition removed (w : World) (s : socket) : World :=
  mkWorld (releasedClients w s) (JsMap.delete Nat.eqb (socketData w) s)
    (nextSocket w).

Definition departure (w : World) (s : socket) (notify : bool) : list effect :=
  match getData w s with
  | Some d =>
      if loggedIn d && notify then
        deliver (lit "INFO " ++ usernameText d ++ lit " disconnected")
          (recipients None (releasedClients w s))
      else []
  | None => []
  end.

(** The record of a session after [updateActivity]. *)
Definition touched (w : World) (s : socket) (now : Z) : World :=
  match getData w s with
  | Some d => setData w s (mkData (username d) now (buffer d))
  | None => w
  end.

(** The invariant of the two maps: no key twice in either, the index
    maps [u] to [s] exactly when the record of [s] carries [u], stored
    usernames passed [isValidUsername], and every stored socket was
    created by an earlier connection.  It holds in every reachable state
    ([reachable_Inv]) and also between the lines of one chunk
    ([processCommand_soundLine]). *)
Record Inv (w : World) : Prop := mkInv {
  inv_clients_nodup : NoDup (JsMap.keys (clients w));
  inv_sessions_nodup : NoDup (JsMap.keys (socketData w));
  inv_index : forall u s,
    JsMap.get str_eqb (clients w) u = Some s <->
    exists d, getData w s = Some d /\ username d = Some u;
  inv_valid : forall s d u,
    getData w s = Some d -> username d = Some u -> isValidUsername u = true;
  inv_fresh : forall s d, getData w s = Some d -> s < nextSocket w
}.

(** The username stored for a socket, if any. *)
Definition usernameOf (w : World) (s : socket) : option jsstring :=
  match getData w s with
  | Some d => username d
  | None => None
  end.

(** The state after a successful [handleLogin]. *)
Definition loginWorld (w : World) (s : socket) (d : SessionData)
  (u : jsstring) : World :=
  mkWorld (JsMap.set str_eqb (clients w) u s)
    (JsMap.set Nat.eqb (socketData w) s
       (mkData (Some u) (lastActivity d) (buffer d)))
    (nextSocket w).

(** A single line written to [s]. *)
Definition reply (s : socket) (message : string) : list effect :=
  [Write s (lit message ++ [LF])].

(** The state after a connection is accepted. *)
Definition connected (w : World) (now : Z) : World :=
  mkWorld (clients w)
    (JsMap.set Nat.eqb (socketData w) (nextSocket w) (mkData None now []))
    (S (nextSocket w)).

(** [s.startsWith(p)]. *)
Fixpoint startsWith (p s : jsstring) : bool :=
  match p, s with
  | [], _ => true
  | _ :: _, [] => false
  | x :: p', y :: s' => N.eqb x y && startsWith p' s'
  end.

(** Every line [broadcast] is called with begins with [INFO ] or [MSG ]:
    [INFO <name> joined], [MSG <name> <text>], [INFO <name> disconnected]
    and [INFO server-shutting-down]. *)
Definition isBroadcastLine (data : jsstring) : bool :=
  startsWith (lit "INFO ") data || startsWith (lit "MSG ") data.

(** The bytes of the reply to a successful [LOGIN]. *)
Definition OKLINE : jsstring := lit "OK" ++ [LF].

(** The socket has been sent the [OK] of a successful [LOGIN]. *)
Definition acked (tr : list effect) (t : socket) : Prop :=
  In (Write t OKLINE) tr.

(** Every broadcast line of the trace goes to a socket that was sent
    [OK] earlier in the trace. *)
Definition traceOk (tr : list effect) : Prop :=
  forall pre t m post,
    tr = pre ++ Write t m :: post -> isBroadcastLine m = true -> acked pre t.

(** The trace so far is good and has an [OK] for every socket of the
    index. *)
Record J (w : World) (tr : list effect) : Prop := mkJ {
  J_trace : traceOk tr;
  J_index : forall u t, In (u, t) (clients w) -> acked tr t
}.

(** Output whose broadcast-like lines all go to sockets of the index. *)
Definition quiet (w : World) (o : list effect) : Prop :=
  forall t m, In (Write t m) o -> isBroadcastLine m = true ->
              exists u, In (u, t) (clients w).

(** The buffers of the stored records are left alone. *)
Definition sameBuffers (w w' : World) : Prop :=
  forall s d, getData w s = Some d ->
              exists d', getData w' s = Some d' /\ buffer d' = buffer d.

(** A handler run that ends, keeps the invariant, and extends a good
    trace to a good trace. *)
Definition sound (w : World) (r : option (unit * World * list effect))
  : Prop :=
  exists w' o, r = Some (tt, w', o) /\ Inv w'
               /\ forall tr, J w tr -> J w' (tr ++ o).

(** The same for the handling of one line, which removes no record and
    touches no buffer. *)
Definition soundLine (w : World) (r : option (unit * World * list effect))
  : Prop :=
  exists w' o, r = Some (tt, w', o) /\ Inv w' /\ sameBuffers w w'
               /\ forall tr, J w tr -> J w' (tr ++ o).

(** The test [!text || text.trim().length === 0] of [handleMessage]. *)
Definition blank (text : jsstring) : bool :=
  negb (truthy text) || (List.length (trim text) =? 0).

(** What the [SIGINT] handler does, in order. *)
Definition shutdownEffects (w : World) : list effect :=
  deliver (lit "INFO server-shutting-down") (recipients None (clients w))
  ++ map Destroy (JsMap.keys (socketData w))
  ++ [CloseServer; Exit 0].

(** A username that is set stays what it is for as long as its record is
    stored. *)
Definition keepsNames (w w' : World) : Prop :=
  forall s d u d',
    getData w s = Some d -> username d = Some u ->
    getData w' s = Some d' -> username d' = Some u.

(** [w'] comes after [w]: usernames that were set are kept, sockets are
    only ever added at [nextSocket], and a socket that was created and is
    no longer stored does not come back. *)
Record succeeds (w w' : World) : Prop := mkSucceeds {
  suc_names : keepsNames w w';
  suc_next : nextSocket w <= nextSocket w';
  suc_gone : forall s, s < nextSocket w -> getData w s = None ->
                       getData w' s = None
}.

(** The state with the buffer of a stored record replaced. *)
Definition withBuffer (w : World) (s : socket) (b : jsstring) : World :=
  match getData w s with
  | Some d => setData w s (mkData (username d) (lastActivity d) b)
  | None => w
  end.

(** A handler result with the buffer of [s] replaced in its state. *)
Definition liftBuffer (s : socket) (b : jsstring)
  (r : option (unit * World * list effect))
  : option (unit * World * list effect) :=
  match r with
  | Some (a, w', o) => Some (a, withBuffer w' s b, o)
  | None => None
  end.

(** The text of complete lines, each with its newline, and an unfinished
    tail. *)
Definition linesText (lines : list jsstring) (tail : jsstring) : jsstring :=
  flat_map (fun l => l ++ [LF]) lines ++ tail.

(** [processCommand] on each line in turn. *)
Definition processLines (toUpperCase : jsstring -> jsstring) (s : socket)
  (now : Z) (lines : list jsstring) : M unit :=
  forEach (fun l => processCommand toUpperCase s l now) lines.

(** Output that consists of writes to sockets and nothing else. *)
Definition writesOnly (o : list effect) : Prop :=
  forall e, In e o -> exists t m, e = Write t m.

(** *** Sample inputs and states *)

Definition bytesOf (s : string) : list byte := list_byte_of_string s.

(** The bytes of a line and its newline. *)
Definition lineOf (s : string) : list byte := bytesOf s ++ [x0a].

(** The records of a session before and after its login. *)
Definition anonymous (now : Z) : SessionData := mkData None now [].

Definition named (u : string) (now : Z) : SessionData :=
  mkData (Some (lit u)) now [].

(** Two connections, nobody logged in. *)
Definition lobbyEvents : list event := [Connect 0; Connect 0].

Definition lobby : World :=
  mkWorld [] [(0, anonymous 0); (1, anonymous 0)] 2.

(** [alice] on socket 0, [bob] on socket 1, socket 2 not logged in. *)
Definition chatEvents : list event :=
  [Connect 0; Connect 0; Connect 0;
   Data 0 (lineOf "LOGIN alice") 1; Data 1 (lineOf "LOGIN bob") 2].

Definition chat : World :=
  mkWorld [(lit "alice", 0); (lit "bob", 1)]
    [(0, named "alice" 1); (1, named "bob" 2); (2, anonymous 0)] 3.

(** *** The statements of the registry and of the username rule *)

(** The correspondence between the two maps: a username is held by at
    most one session, the index maps [u] to [s] exactly when the record
    of [s] carries [u], and no name is listed twice. *)
Record registryConsistent (w : World) : Prop := mkConsistent {
  rc_unique : forall s1 s2 d1 d2 u,
    getData w s1 = Some d1 -> getData w s2 = Some d2 ->
    username d1 = Some u -> username d2 = Some u -> s1 = s2;
  rc_index : forall u s,
    (exists d, getData w s = Some d /\ username d = Some u) <->
    JsMap.get str_eqb (clients w) u = Some s;
  rc_no_duplicate : NoDup (JsMap.keys (clients w))
}.

(** The validity rule in the words of the specification: 1 to 20
    characters, each from [a-zA-Z0-9_-]. *)
Definition inCharset (c : N) : Prop :=
  (97 <= c <= 122 \/ 65 <= c <= 90 \/ 48 <= c <= 57 \/ c = 95 \/ c = 45)%N.

Definition validName (n : jsstring) : Prop :=
  1 <= List.length n <= 20 /\ Forall inCharset n.

(** 2049 copies of the two-byte character U+00E9. *)
Definition accented : list byte := List.concat (repeat [xc3; xa9] 2049).

(* ================================================================== *)
(** ** Facts about strings *)

Module JsFacts.

Lemma str_eqb_eq (a b : jsstring) : str_eqb a b = true <-> a = b.
Proof.
  revert b; induction a as [|x a IH]; intros [|y b]; simpl;
    try (split; [discriminate | discriminate]); [tauto |].
  rewrite andb_true_iff, N.eqb_eq, IH.
  split; [intros [-> ->]; reflexivity | intros H; injection H; auto].
Qed.

Lemma str_eqb_refl (a : jsstring) : str_eqb a a = true.
Proof. apply str_eqb_eq; reflexivity. Qed.

Lemma str_eqb_neq (a b : jsstring) : str_eqb a b = false <-> a <> b.
Proof.
  rewrite <- str_eqb_eq. destruct (str_eqb a b); split; congruence.
Qed.

Lemma split_not_nil (sep : N) (s : jsstring) : split sep s <> [].
Proof.
  destruct s as [|c r]; simpl; [discriminate|].
  destruct (N.eqb c sep); [discriminate|].
  destruct (split sep r); discriminate.
Qed.

(** Splitting at a separator and joining with the same separator gives
    the string back, whatever runs of separators it holds. *)
Lemma join_split (sep : N) (s : jsstring) : join sep (split sep s) = s.
Proof.
  induction s as [|c r IH]; [reflexivity|].
  simpl. destruct (N.eqb c sep) eqn:E.
  - apply N.eqb_eq in E; subst c.
    pose proof (split_not_nil sep r) as Hne.
    simpl. destruct (split sep r) as [|p ps]; [contradiction|].
    simpl in *. rewrite IH. reflexivity.
  - pose proof (split_not_nil sep r) as Hne.
    destruct (split sep r) as [|p ps]; [contradiction|].
    simpl in *. destruct ps; simpl in *; rewrite <- IH; reflexivity.
Qed.

(** A part that holds no separator is split off whole. *)
Lemma split_app (sep : N) (p rest : jsstring) :
  ~ In sep p -> split sep (p ++ sep :: rest) = p :: split sep rest.
Proof.
  induction p as [|c p IH]; intros Hp; simpl.
  - rewrite N.eqb_refl. reflexivity.
  - destruct (N.eqb c sep) eqn:E.
    + apply N.eqb_eq in E. exfalso; apply Hp; left; auto.
    + rewrite IH; [reflexivity|]. intros H; apply Hp; right; exact H.
Qed.

Lemma indexOf_None (c : N) (s : jsstring) :
  indexOf c s = None <-> ~ In c s.
Proof.
  induction s as [|x r IH]; simpl; [tauto|].
  destruct (N.eqb x c) eqn:E.
  - apply N.eqb_eq in E. split; [discriminate | intros H; exfalso; auto].
  - apply N.eqb_neq in E. destruct (indexOf c r).
    + split; [discriminate|]. intros H. exfalso. apply H. right.
      destruct (in_dec N.eq_dec c r) as [Hi|Hni]; [exact Hi|].
      apply IH in Hni. discriminate.
    + split; [|reflexivity]. intros _ [H|H]; [contradiction|].
      apply (proj1 IH); auto.
Qed.

Lemma indexOf_Some (c : N) (s : jsstring) (i : nat) :
  indexOf c s = Some i ->
  i < List.length s /\ ~ In c (firstn i s) /\ nth i s 0%N = c.
Proof.
  revert i; induction s as [|x r IH]; simpl; intros i H; [discriminate|].
  destruct (N.eqb x c) eqn:E.
  - injection H as <-. apply N.eqb_eq in E. simpl. repeat split; auto; lia.
  - destruct (indexOf c r) as [j|]; [|discriminate].
    injection H as <-. destruct (IH j eq_refl) as (Hl & Hn & Hc).
    apply N.eqb_neq in E. simpl. repeat split; [lia| |exact Hc].
    intros [H|H]; [contradiction|auto].
Qed.

(** The first line of [line ++ LF :: rest] when [line] has no newline. *)
Lemma indexOf_app (c : N) (line rest : jsstring) :
  ~ In c line -> indexOf c (line ++ c :: rest) = Some (List.length line).
Proof.
  induction line as [|x l IH]; intros Hn; simpl.
  - rewrite N.eqb_refl. reflexivity.
  - destruct (N.eqb x c) eqn:E.
    + apply N.eqb_eq in E. exfalso; apply Hn; left; auto.
    + rewrite IH; [reflexivity|]. intros H; apply Hn; right; exact H.
Qed.

Lemma firstn_length_app (A : Type) (l r : list A) :
  firstn (List.length l) (l ++ r) = l.
Proof. induction l; simpl; [destruct r; reflexivity | f_equal; auto]. Qed.

Lemma skipn_length_app (A : Type) (l r : list A) (x : A) :
  skipn (S (List.length l)) (l ++ x :: r) = r.
Proof. induction l; simpl; auto. Qed.

End JsFacts.

Import JsFacts.

(* ================================================================== *)
(** ** Facts about maps *)

Module JsMapFacts.
Section Facts.
Variables K V : Type.
Variable eqb : K -> K -> bool.
Hypothesis eqb_spec : forall a b, eqb a b = true <-> a = b.

Abbreviation get := (JsMap.get eqb).
Abbreviation set := (JsMap.set eqb).
Abbreviation delete := (JsMap.delete eqb).
Abbreviation keys := (@JsMap.keys K V).

Lemma eqb_refl k : eqb k k = true.
Proof. apply eqb_spec; reflexivity. Qed.

Lemma eqb_false a b : a <> b -> eqb a b = false.
Proof.
  intros H. destruct (eqb a b) eqn:E; [|reflexivity].
  apply eqb_spec in E. contradiction.
Qed.

Lemma get_In (m : JsMap.t K V) k v : get m k = Some v -> In (k, v) m.
Proof.
  induction m as [|[k' v'] r IH]; simpl; [discriminate|].
  destruct (eqb k' k) eqn:E.
  - apply eqb_spec in E; subst. intros H; injection H as ->. left; auto.
  - intros H; right; auto.
Qed.

Lemma get_None (m : JsMap.t K V) k : get m k = None <-> ~ In k (keys m).
Proof.
  induction m as [|[k' v'] r IH]; simpl; [tauto|].
  destruct (eqb k' k) eqn:E.
  - apply eqb_spec in E. split; [discriminate | intros H; exfalso; auto].
  - rewrite IH. split.
    + intros H [H1|H1]; [|auto]. subst. rewrite eqb_refl in E. discriminate.
    + tauto.
Qed.

Lemma In_get (m : JsMap.t K V) k v :
  NoDup (keys m) -> In (k, v) m -> get m k = Some v.
Proof.
  induction m as [|[k' v'] r IH]; simpl; [tauto|].
  intros Hnd [H|H].
  - injection H as -> ->. rewrite eqb_refl. reflexivity.
  - inversion Hnd as [|? ? Hn Hnd']; subst.
    destruct (eqb k' k) eqn:E; [|auto].
    apply eqb_spec in E; subst. exfalso; apply Hn.
    apply (in_map fst) in H. exact H.
Qed.

Lemma get_set_same (m : JsMap.t K V) k v : get (set m k v) k = Some v.
Proof.
  induction m as [|[k' v'] r IH]; simpl.
  - rewrite eqb_refl; reflexivity.
  - destruct (eqb k' k) eqn:E; simpl; rewrite E; auto.
Qed.

Lemma get_set_other (m : JsMap.t K V) k v k' :
  k' <> k -> get (set m k v) k' = get m k'.
Proof.
  intros Hne. induction m as [|[k0 v0] r IH]; simpl.
  - rewrite eqb_false; auto.
  - destruct (eqb k0 k) eqn:E; simpl.
    + apply eqb_spec in E; subst. rewrite eqb_false; auto.
    + rewrite IH. reflexivity.
Qed.

Lemma set_new (m : JsMap.t K V) k v :
  get m k = None -> set m k v = m ++ [(k, v)].
Proof.
  induction m as [|[k0 v0] r IH]; simpl; [reflexivity|].
  destruct (eqb k0 k); [discriminate|]. intros H; rewrite IH; auto.
Qed.

Lemma keys_set_old (m : JsMap.t K V) k v v0 :
  get m k = Some v0 -> keys (set m k v) = keys m.
Proof.
  induction m as [|[k0 v1] r IH]; simpl; [discriminate|].
  destruct (eqb k0 k) eqn:E; simpl; [reflexivity|].
  intros H; f_equal; auto.
Qed.

Lemma NoDup_set (m : JsMap.t K V) k v :
  NoDup (keys m) -> NoDup (keys (set m k v)).
Proof.
  intros Hnd. destruct (get m k) as [v0|] eqn:E.
  - rewrite keys_set_old with (v0 := v0) by exact E. exact Hnd.
  - rewrite set_new by exact E. unfold JsMap.keys. rewrite map_app. simpl.
    apply NoDup_app; [exact Hnd | repeat constructor; simpl; tauto |].
    intros x Hx [<-|[]]. apply get_None in E. contradiction.
Qed.

Lemma In_set (m : JsMap.t K V) k v e :
  In e (set m k v) -> In e m \/ e = (k, v).
Proof.
  induction m as [|[k0 v0] r IH]; simpl.
  - intros [H|[]]; auto.
  - destruct (eqb k0 k) eqn:E; simpl.
    + apply eqb_spec in E; subst. intros [H|H]; auto.
    + intros [H|H]; auto. destruct (IH H); auto.
Qed.

Lemma In_delete (m : JsMap.t K V) k e : In e (delete m k) -> In e m.
Proof.
  induction m as [|[k0 v0] r IH]; simpl; [tauto|].
  destruct (eqb k0 k); simpl; [auto|]. intros [H|H]; auto.
Qed.

Lemma delete_absent (m : JsMap.t K V) k : get m k = None -> delete m k = m.
Proof.
  induction m as [|[k0 v0] r IH]; simpl; [reflexivity|].
  destruct (eqb k0 k); [discriminate|]. intros H; rewrite IH; auto.
Qed.

Lemma get_delete_other (m : JsMap.t K V) k k' :
  k' <> k -> get (delete m k) k' = get m k'.
Proof.
  intros Hne. induction m as [|[k0 v0] r IH]; simpl; [reflexivity|].
  destruct (eqb k0 k) eqn:E; simpl.
  - apply eqb_spec in E; subst. rewrite eqb_false; auto.
  - rewrite IH. reflexivity.
Qed.

Lemma get_delete_same (m : JsMap.t K V) k :
  NoDup (keys m) -> get (delete m k) k = None.
Proof.
  induction m as [|[k0 v0] r IH]; simpl; [reflexivity|].
  intros Hnd. inversion Hnd as [|? ? Hn Hnd']; subst.
  destruct (eqb k0 k) eqn:E; simpl.
  - apply eqb_spec in E; subst. apply get_None. exact Hn.
  - rewrite E. auto.
Qed.

Lemma NoDup_delete (m : JsMap.t K V) k :
  NoDup (keys m) -> NoDup (keys (delete m k)).
Proof.
  induction m as [|[k0 v0] r IH]; simpl; [auto|].
  intros Hnd. inversion Hnd as [|? ? Hn Hnd']; subst.
  destruct (eqb k0 k); simpl; [exact Hnd'|].
  constructor; [|auto]. intros H. apply Hn.
  apply in_map_iff in H. destruct H as [e [He Hin]].
  apply In_delete in Hin. apply in_map_iff. exists e; auto.
Qed.

Lemma set_same (m : JsMap.t K V) k v :
  get m k = Some v -> set m k v = m.
Proof.
  induction m as [|[k0 v0] r IH]; simpl; [discriminate|].
  destruct (eqb k0 k) eqn:E.
  - intros H; injection H as ->. reflexivity.
  - intros H; rewrite IH; auto.
Qed.

Lemma set_set (m : JsMap.t K V) k v1 v2 :
  set (set m k v1) k v2 = set m k v2.
Proof.
  induction m as [|[k0 v0] r IH]; simpl.
  - rewrite eqb_refl. reflexivity.
  - destruct (eqb k0 k) eqn:E; simpl; rewrite E; [reflexivity|].
    rewrite IH. reflexivity.
Qed.

Lemma has_true (m : JsMap.t K V) k :
  JsMap.has eqb m k = true <-> exists v, get m k = Some v.
Proof.
  unfold JsMap.has. destruct (get m k) as [v|].
  - split; [eauto | reflexivity].
  - split; [discriminate | intros [v H]; discriminate].
Qed.

Lemma has_false (m : JsMap.t K V) k :
  JsMap.has eqb m k = false <-> get m k = None.
Proof.
  unfold JsMap.has. destruct (get m k); split; congruence.
Qed.
End Facts.
End JsMapFacts.

Lemma nat_eqb_spec (a b : nat) : Nat.eqb a b = true <-> a = b.
Proof. apply Nat.eqb_eq. Qed.

(* ================================================================== *)
(** ** Running handlers *)

Lemma bind_inv (A B : Type) (c : M A) (k : A -> M B) w b w2 o :
  bind c k w = Some (b, w2, o) ->
  exists a w1 o1 o2,
    c w = Some (a, w1, o1) /\ k a w1 = Some (b, w2, o2) /\ o = o1 ++ o2.
Proof.
  unfold bind. destruct (c w) as [[[a w1] o1]|] eqn:E1; [|discriminate].
  destruct (k a w1) as [[[b' w2'] o2]|] eqn:E2; [|discriminate].
  intros H; injection H as <- <- <-. exists a, w1, o1, o2.
  repeat split; auto.
Qed.

Lemma bind_run (A B : Type) (c : M A) (k : A -> M B) w a w1 o1 b w2 o2 :
  c w = Some (a, w1, o1) -> k a w1 = Some (b, w2, o2) ->
  bind c k w = Some (b, w2, o1 ++ o2).
Proof. intros H1 H2. unfold bind. rewrite H1, H2. reflexivity. Qed.

Lemma forEach_send message ex (l : list (jsstring * socket)) w :
  forEach (fun e : jsstring * socket =>
             if isNot (snd e) ex then sendToSocket (snd e) message
             else ret tt) l w
  = Some (tt, w, deliver message (recipients ex l)).
Proof.
  induction l as [|[u t] r IH]; [reflexivity|].
  unfold recipients in *. simpl.
  destruct (isNot t ex); simpl;
    (erewrite bind_run; [| reflexivity | apply IH]); reflexivity.
Qed.

Lemma broadcast_run message ex w :
  broadcast message ex w
  = Some (tt, w, deliver message (recipients ex (clients w))).
Proof.
  unfold broadcast.
  erewrite bind_run; [| reflexivity | apply forEach_send]. reflexivity.
Qed.

Lemma In_recipients ex cl t :
  In t (recipients ex cl) <->
  exists u, In (u, t) cl /\ isNot t ex = true.
Proof.
  unfold recipients. rewrite in_map_iff. split.
  - intros [[u t'] [<- H]]. apply filter_In in H. simpl in *.
    exists u. exact H.
  - intros [u [H1 H2]]. exists (u, t). split; [reflexivity|].
    apply filter_In. auto.
Qed.

Lemma In_deliver message to e :
  In e (deliver message to) <->
  exists t, In t to /\ e = Write t (message ++ [LF]).
Proof.
  unfold deliver. rewrite in_map_iff. split.
  - intros [t [<- H]]. eauto.
  - intros [t [H ->]]. eauto.
Qed.

Lemma forEach_emit (A : Type) (f : A -> effect) (l : list A) w :
  forEach (fun a => emit (f a)) l w = Some (tt, w, map f l).
Proof.
  induction l as [|a r IH]; [reflexivity|]. simpl.
  erewrite bind_run; [| reflexivity | apply IH]. reflexivity.
Qed.

Lemma removeUser_run s notify w :
  removeUser s notify w = Some (tt, removed w s, departure w s notify).
Proof.
  unfold removeUser, removed, departure, releasedClients.
  destruct (getData w s) as [d|] eqn:E.
  - destruct (loggedIn d) eqn:L; destruct notify; simpl;
      unfold bind, getW, putW, ret; simpl; rewrite E; simpl; rewrite ?L;
      simpl; rewrite ?broadcast_run; simpl; rewrite ?app_nil_r; reflexivity.
  - unfold bind, getW, putW, ret; simpl. rewrite E. reflexivity.
Qed.

Lemma updateActivity_run s now w :
  updateActivity s now w = Some (tt, touched w s now, []).
Proof.
  unfold updateActivity, touched, bind, getW. simpl.
  destruct (getData w s); reflexivity.
Qed.

(* ================================================================== *)
(** ** The registry invariant *)

Lemma Inv_initial : Inv initial.
Proof.
  constructor; simpl; try constructor; unfold getData; simpl;
    try discriminate.
  intros [d [H _]]; discriminate.
Qed.

Lemma valid_truthy u : isValidUsername u = true -> truthy u = true.
Proof.
  unfold isValidUsername. intros H.
  repeat (apply andb_true_iff in H; destruct H as [H ?]). exact H.
Qed.

Lemma Inv_loggedIn w s d :
  Inv w -> getData w s = Some d ->
  (loggedIn d = true <-> exists u, username d = Some u).
Proof.
  intros HI E. unfold loggedIn. split.
  - destruct (username d) as [u|]; [eauto | discriminate].
  - intros [u Hu]. rewrite Hu. apply valid_truthy.
    eapply inv_valid; eauto.
Qed.

Lemma Inv_loggedIn_false w s d :
  Inv w -> getData w s = Some d -> loggedIn d = false -> username d = None.
Proof.
  intros HI E L. destruct (username d) as [u|] eqn:Hu; [|reflexivity].
  assert (loggedIn d = true) by (eapply Inv_loggedIn; eauto). congruence.
Qed.

Lemma getData_setData_same w s d : getData (setData w s d) s = Some d.
Proof. apply JsMapFacts.get_set_same, nat_eqb_spec. Qed.

Lemma getData_setData_other w s d s' :
  s' <> s -> getData (setData w s d) s' = getData w s'.
Proof. apply JsMapFacts.get_set_other, nat_eqb_spec. Qed.

(** Rewriting the activity stamp or the buffer of a stored record keeps
    the invariant. *)
Lemma Inv_setData w s d d' :
  Inv w -> getData w s = Some d -> username d' = username d ->
  Inv (setData w s d').
Proof.
  intros [H1 H2 H3 H4 H5] E Hu. constructor; simpl.
  - exact H1.
  - apply JsMapFacts.NoDup_set; [apply nat_eqb_spec | exact H2].
  - intros u t. rewrite H3. fold (getData (setData w s d') t).
    destruct (Nat.eq_dec t s) as [->|Hne].
    + rewrite getData_setData_same, E. split; intros [x [Hx Hy]];
        injection Hx as <-; eexists; split; eauto; congruence.
    + rewrite getData_setData_other by exact Hne. tauto.
  - intros t x u. fold (getData (setData w s d') t).
    destruct (Nat.eq_dec t s) as [->|Hne].
    + rewrite getData_setData_same. intros Hx Hy; injection Hx as <-.
      eapply H4; eauto. congruence.
    + rewrite getData_setData_other by exact Hne. apply H4.
  - intros t x. fold (getData (setData w s d') t).
    destruct (Nat.eq_dec t s) as [->|Hne].
    + intros _. eapply H5; eauto.
    + rewrite getData_setData_other by exact Hne. apply H5.
Qed.

Lemma Inv_touched w s now : Inv w -> Inv (touched w s now).
Proof.
  intros HI. unfold touched. destruct (getData w s) as [d|] eqn:E; [|auto].
  eapply Inv_setData; eauto.
Qed.

Lemma handleLogin_already w s d u :
  getData w s = Some d -> loggedIn d = true ->
  handleLogin s u w = Some (tt, w, reply s "ERR already-logged-in").
Proof.
  intros E L. unfold handleLogin, bind, getW. simpl. rewrite E, L.
  reflexivity.
Qed.

Lemma handleLogin_invalid w s d u :
  getData w s = Some d -> loggedIn d = false -> isValidUsername u = false ->
  handleLogin s u w = Some (tt, w, reply s "ERR invalid-username").
Proof.
  intros E L V. unfold handleLogin, bind, getW. simpl. rewrite E, L, V.
  reflexivity.
Qed.

Lemma handleLogin_taken w s d u :
  getData w s = Some d -> loggedIn d = false -> isValidUsername u = true ->
  JsMap.has str_eqb (clients w) u = true ->
  handleLogin s u w = Some (tt, w, reply s "ERR username-taken").
Proof.
  intros E L V T. unfold handleLogin, bind, getW. simpl. rewrite E, L, V, T.
  reflexivity.
Qed.

Lemma handleLogin_success w s d u :
  getData w s = Some d -> loggedIn d = false -> isValidUsername u = true ->
  JsMap.has str_eqb (clients w) u = false ->
  handleLogin s u w
  = Some (tt, loginWorld w s d u,
          reply s "OK"
          ++ deliver (lit "INFO " ++ u ++ lit " joined")
               (recipients (Some s) (clients (loginWorld w s d u)))).
Proof.
  intros E L V T. unfold handleLogin, bind, getW. simpl. rewrite E, L, V, T.
  simpl. unfold putW, sendToSocket, emit. simpl.
  rewrite broadcast_run. reflexivity.
Qed.

Lemma Inv_loginWorld w s d u :
  Inv w -> getData w s = Some d -> loggedIn d = false ->
  isValidUsername u = true -> JsMap.has str_eqb (clients w) u = false ->
  Inv (loginWorld w s d u).
Proof.
  intros HI E L V T.
  pose proof (Inv_loggedIn_false w s d HI E L) as Hnone.
  apply JsMapFacts.has_false in T.
  destruct HI as [H1 H2 H3 H4 H5]. constructor; simpl.
  - apply JsMapFacts.NoDup_set; [apply str_eqb_eq | exact H1].
  - apply JsMapFacts.NoDup_set; [apply nat_eqb_spec | exact H2].
  - intros u' t. unfold getData; simpl.
    destruct (list_eq_dec N.eq_dec u' u) as [->|Hu];
      destruct (Nat.eq_dec t s) as [->|Ht].
    + rewrite !JsMapFacts.get_set_same
        by (apply str_eqb_eq || apply nat_eqb_spec).
      split; [eexists; split; reflexivity | reflexivity].
    + rewrite JsMapFacts.get_set_same by apply str_eqb_eq.
      rewrite JsMapFacts.get_set_other by (apply nat_eqb_spec || exact Ht).
      split; [intros H; injection H as <-; contradiction|].
      intros [x [Hx Hy]].
      assert (JsMap.get str_eqb (clients w) u = Some t)
        by (apply H3; eauto).
      congruence.
    + rewrite JsMapFacts.get_set_other by (apply str_eqb_eq || exact Hu).
      rewrite JsMapFacts.get_set_same by apply nat_eqb_spec.
      split.
      * intros H. apply H3 in H. destruct H as [x [Hx Hy]].
        exfalso. congruence.
      * intros [x [Hx Hy]]. injection Hx as <-. simpl in Hy. congruence.
    + rewrite JsMapFacts.get_set_other by (apply str_eqb_eq || exact Hu).
      rewrite JsMapFacts.get_set_other by (apply nat_eqb_spec || exact Ht).
      apply H3.
  - intros t x u'. unfold getData; simpl.
    destruct (Nat.eq_dec t s) as [->|Ht].
    + rewrite JsMapFacts.get_set_same by apply nat_eqb_spec.
      intros Hx Hy; injection Hx as <-. simpl in Hy. congruence.
    + rewrite JsMapFacts.get_set_other by (apply nat_eqb_spec || exact Ht).
      apply H4.
  - intros t x. unfold getData; simpl.
    destruct (Nat.eq_dec t s) as [->|Ht].
    + intros _. eapply H5; eauto.
    + rewrite JsMapFacts.get_set_other by (apply nat_eqb_spec || exact Ht).
      apply H5.
Qed.

Lemma removed_absent w s : getData w s = None -> removed w s = w.
Proof.
  intros E. unfold removed, releasedClients. rewrite E.
  unfold getData in E.
  rewrite JsMapFacts.delete_absent by (apply nat_eqb_spec || exact E).
  destruct w; reflexivity.
Qed.

Lemma getData_removed_same w s :
  NoDup (JsMap.keys (socketData w)) -> getData (removed w s) s = None.
Proof.
  intros H. unfold getData; simpl.
  apply JsMapFacts.get_delete_same; [apply nat_eqb_spec | exact H].
Qed.

Lemma getData_removed_other w s t :
  t <> s -> getData (removed w s) t = getData w t.
Proof.
  intros H. unfold getData; simpl.
  apply JsMapFacts.get_delete_other; [apply nat_eqb_spec | exact H].
Qed.

Lemma Inv_removed w s : Inv w -> Inv (removed w s).
Proof.
  intros HI. destruct (getData w s) as [d|] eqn:E;
    [|rewrite removed_absent; auto].
  pose proof HI as [H1 H2 H3 H4 H5].
  assert (Hsd : forall t x, getData (removed w s) t = Some x ->
                            t <> s /\ getData w t = Some x).
  { intros t x Hx. destruct (Nat.eq_dec t s) as [->|Ht].
    - rewrite getData_removed_same in Hx by exact H2. discriminate.
    - rewrite getData_removed_other in Hx by exact Ht. auto. }
  constructor.
  - simpl. unfold releasedClients. rewrite E.
    destruct (loggedIn d); [|exact H1].
    apply JsMapFacts.NoDup_delete; exact H1.
  - simpl. apply JsMapFacts.NoDup_delete; exact H2.
  - intros u t. simpl. unfold releasedClients. rewrite E.
    destruct (loggedIn d) eqn:L.
    + destruct (proj1 (Inv_loggedIn w s d HI E) L) as [u0 Hu0].
      unfold usernameText. rewrite Hu0.
      assert (Hs : JsMap.get str_eqb (clients w) u0 = Some s)
        by (apply H3; eauto).
      destruct (list_eq_dec N.eq_dec u u0) as [->|Hu].
      * rewrite JsMapFacts.get_delete_same
          by (apply str_eqb_eq || exact H1).
        split; [discriminate|]. intros [x [Hx Hy]].
        apply Hsd in Hx. destruct Hx as [Hne Hx].
        assert (JsMap.get str_eqb (clients w) u0 = Some t)
          by (apply H3; eauto).
        congruence.
      * rewrite JsMapFacts.get_delete_other
          by (apply str_eqb_eq || exact Hu).
        rewrite H3. split; intros [x [Hx Hy]].
        -- exists x. split; [|exact Hy].
           rewrite getData_removed_other; [exact Hx|].
           intros ->. congruence.
        -- apply Hsd in Hx. destruct Hx; eauto.
    + pose proof (Inv_loggedIn_false w s d HI E L) as Hn.
      rewrite H3. split; intros [x [Hx Hy]].
      * exists x. split; [|exact Hy].
        rewrite getData_removed_other; [exact Hx|].
        intros ->. congruence.
      * apply Hsd in Hx. destruct Hx; eauto.
  - intros t x u Hx. apply Hsd in Hx. destruct Hx. eapply H4; eauto.
  - intros t x Hx. apply Hsd in Hx. destruct Hx. simpl. eapply H5; eauto.
Qed.

Lemma Inv_fresh_absent w : Inv w -> getData w (nextSocket w) = None.
Proof.
  intros HI. destruct (getData w (nextSocket w)) as [d|] eqn:E; [|auto].
  apply (inv_fresh w HI) in E. lia.
Qed.

Lemma Inv_connected w now : Inv w -> Inv (connected w now).
Proof.
  intros HI. pose proof (Inv_fresh_absent w HI) as Hf.
  destruct HI as [H1 H2 H3 H4 H5].
  assert (Hsd : forall t x, getData (connected w now) t = Some x ->
            (t = nextSocket w /\ x = mkData None now [])
            \/ (t <> nextSocket w /\ getData w t = Some x)).
  { intros t x. unfold getData; simpl.
    destruct (Nat.eq_dec t (nextSocket w)) as [->|Ht].
    - rewrite JsMapFacts.get_set_same by apply nat_eqb_spec.
      intros H; injection H as <-. auto.
    - rewrite JsMapFacts.get_set_other by (apply nat_eqb_spec || exact Ht).
      auto. }
  constructor.
  - exact H1.
  - simpl. apply JsMapFacts.NoDup_set; [apply nat_eqb_spec | exact H2].
  - intros u t. simpl. rewrite H3. split; intros [x [Hx Hy]].
    + exists x. split; [|exact Hy]. unfold getData; simpl.
      rewrite JsMapFacts.get_set_other; [exact Hx | apply nat_eqb_spec |].
      intros ->. congruence.
    + apply Hsd in Hx. destruct Hx as [[-> ->]|[_ Hx]]; [discriminate|eauto].
  - intros t x u Hx Hy. apply Hsd in Hx.
    destruct Hx as [[-> ->]|[_ Hx]]; [discriminate | eapply H4; eauto].
  - intros t x Hx. apply Hsd in Hx. simpl.
    destruct Hx as [[-> ->]|[_ Hx]]; [lia|]. apply H5 in Hx. lia.
Qed.

(* ================================================================== *)
(** ** Broadcast lines and acknowledged sockets *)

Lemma J_step w w' tr o :
  J w tr -> quiet w o ->
  (forall u t, In (u, t) (clients w') -> In (u, t) (clients w) \/ acked o t) ->
  J w' (tr ++ o).
Proof.
  intros [Ht Hi] Hq Hnew. constructor.
  - intros pre t m post Heq Hb.
    apply app_eq_app in Heq. destruct Heq as [l [[H1 H2]|[H1 H2]]].
    + destruct l as [|e l].
      * rewrite app_nil_r in H1. subst pre. simpl in H2.
        destruct (Hq t m) as [u Hu];
          [rewrite <- H2; left; reflexivity | exact Hb |].
        apply (Hi u t Hu).
      * simpl in H2. injection H2 as <- ->.
        apply (Ht pre t m l H1 Hb).
    + subst pre. unfold acked. apply in_or_app. left.
      destruct (Hq t m) as [u Hu];
        [rewrite H2; apply in_or_app; right; left; reflexivity|exact Hb|].
      apply (Hi u t Hu).
  - intros u t Hin. unfold acked. apply in_or_app.
    destruct (Hnew u t Hin) as [H|H]; [left; apply (Hi u t H) | right; exact H].
Qed.

Lemma J_quiet w tr o : J w tr -> quiet w o -> J w (tr ++ o).
Proof. intros HJ Hq. apply (J_step w w tr o HJ Hq). auto. Qed.

Lemma quiet_nil w : quiet w [].
Proof. intros t m []. Qed.

Lemma quiet_app w o1 o2 : quiet w o1 -> quiet w o2 -> quiet w (o1 ++ o2).
Proof.
  intros H1 H2 t m Hin Hb. apply in_app_or in Hin.
  destruct Hin; [eapply H1 | eapply H2]; eauto.
Qed.

Lemma quiet_write w t m :
  isBroadcastLine m = false -> quiet w [Write t m].
Proof.
  intros Hm t' m' [H|[]] Hb. injection H as <- <-. congruence.
Qed.

Lemma quiet_other w e :
  (forall t m, e <> Write t m) -> quiet w [e].
Proof. intros H t m [Hin|[]] _. exfalso. apply (H t m). exact Hin. Qed.

Lemma quiet_deliver w w' message ex :
  (forall e, In e (clients w') -> In e (clients w)) ->
  quiet w (deliver message (recipients ex (clients w'))).
Proof.
  intros Hsub t m Hin _. apply In_deliver in Hin.
  destruct Hin as [t' [Ht Heq]]. injection Heq as <- _.
  apply In_recipients in Ht. destruct Ht as [u [Hu _]].
  exists u. apply Hsub. exact Hu.
Qed.

Lemma quiet_index w s d m :
  Inv w -> getData w s = Some d -> loggedIn d = true -> quiet w [Write s m].
Proof.
  intros HI E L t m' [H|[]] _. injection H as <- <-.
  destruct (proj1 (Inv_loggedIn w s d HI E) L) as [u Hu].
  exists u. apply (JsMapFacts.get_In _ _ str_eqb str_eqb_eq).
  apply (inv_index w HI). eauto.
Qed.

Lemma sameBuffers_refl w : sameBuffers w w.
Proof. intros s d H. eauto. Qed.

Lemma sameBuffers_trans w1 w2 w3 :
  sameBuffers w1 w2 -> sameBuffers w2 w3 -> sameBuffers w1 w3.
Proof.
  intros H12 H23 s d H. destruct (H12 s d H) as [d2 [H2 E2]].
  destruct (H23 s d2 H2) as [d3 [H3 E3]]. exists d3. split; congruence.
Qed.

Lemma sameBuffers_setData w s d d' :
  getData w s = Some d -> buffer d' = buffer d ->
  sameBuffers w (setData w s d').
Proof.
  intros E Hb t x Hx. destruct (Nat.eq_dec t s) as [->|Ht].
  - rewrite getData_setData_same. exists d'. split; congruence.
  - rewrite getData_setData_other by exact Ht. eauto.
Qed.

Lemma soundLine_sound w r : soundLine w r -> sound w r.
Proof. intros (w' & o & H1 & H2 & _ & H3). exists w', o. auto. Qed.

Lemma soundLine_quiet w o :
  Inv w -> quiet w o -> soundLine w (Some (tt, w, o)).
Proof.
  intros HI Hq. exists w, o.
  split; [reflexivity|]. split; [exact HI|].
  split; [apply sameBuffers_refl|].
  intros tr HJ. apply J_quiet; assumption.
Qed.

Lemma sound_seq (c : M unit) (k : M unit) w :
  sound w (c w) ->
  (forall w1 o1, c w = Some (tt, w1, o1) -> Inv w1 -> sound w1 (k w1)) ->
  sound w (bind c (fun _ => k) w).
Proof.
  intros (w1 & o1 & E1 & I1 & J1) Hk.
  destruct (Hk w1 o1 E1 I1) as (w2 & o2 & E2 & I2 & J2).
  exists w2, (o1 ++ o2). split; [unfold bind; rewrite E1, E2; reflexivity|].
  split; [exact I2|]. intros tr HJ. rewrite app_assoc. auto.
Qed.

Lemma soundLine_seq (c : M unit) (k : M unit) w :
  soundLine w (c w) ->
  (forall w1 o1, c w = Some (tt, w1, o1) -> Inv w1 -> sameBuffers w w1 ->
                 soundLine w1 (k w1)) ->
  soundLine w (bind c (fun _ => k) w).
Proof.
  intros (w1 & o1 & E1 & I1 & B1 & J1) Hk.
  destruct (Hk w1 o1 E1 I1 B1) as (w2 & o2 & E2 & I2 & B2 & J2).
  exists w2, (o1 ++ o2). split; [unfold bind; rewrite E1, E2; reflexivity|].
  split; [exact I2|]. split; [eapply sameBuffers_trans; eauto|].
  intros tr HJ. rewrite app_assoc. auto.
Qed.

(* ================================================================== *)
(** ** The command handlers, case by case *)

Ltac run_handler :=
  unfold handleMessage, handleWho, handleDirectMessage, handlePing,
    sendPrivateMessage, sendToSocket, reply, bind, getW, emit, ret;
  simpl.

Lemma blank_trim text : blank text = true <-> trim text = [].
Proof.
  unfold blank. rewrite orb_true_iff, Nat.eqb_eq. split.
  - intros [H|H].
    + destruct text; [reflexivity | discriminate].
    + destruct (trim text); [reflexivity | discriminate].
  - intros ->. right. reflexivity.
Qed.

Lemma handleMessage_anonymous w s d text :
  getData w s = Some d -> loggedIn d = false ->
  handleMessage s text w = Some (tt, w, reply s "ERR not-logged-in").
Proof. intros E L. run_handler. rewrite E, L. reflexivity. Qed.

Lemma handleMessage_blank w s d text :
  getData w s = Some d -> loggedIn d = true -> blank text = true ->
  handleMessage s text w = Some (tt, w, reply s "ERR empty-message").
Proof.
  intros E L B. run_handler. rewrite E, L. unfold blank in B.
  simpl. rewrite B. reflexivity.
Qed.

Lemma handleMessage_fanout w s d text :
  getData w s = Some d -> loggedIn d = true -> blank text = false ->
  handleMessage s text w
  = Some (tt, w,
          deliver (lit "MSG " ++ usernameText d ++ lit " " ++ trim text)
            (recipients None (clients w))).
Proof.
  intros E L B. run_handler. rewrite E, L. unfold blank in B.
  simpl. rewrite B, broadcast_run. reflexivity.
Qed.

Lemma handleWho_anonymous w s d :
  getData w s = Some d -> loggedIn d = false ->
  handleWho s w = Some (tt, w, reply s "ERR not-logged-in").
Proof. intros E L. run_handler. rewrite E, L. reflexivity. Qed.

Lemma handleWho_empty w s d :
  getData w s = Some d -> loggedIn d = true -> clients w = [] ->
  handleWho s w = Some (tt, w, reply s "INFO no-users").
Proof. intros E L C. run_handler. rewrite E, L, C. reflexivity. Qed.

Lemma forEach_user s (l : list jsstring) w :
  forEach (fun u => sendToSocket s (lit "USER " ++ u)) l w
  = Some (tt, w, map (fun u => Write s ((lit "USER " ++ u) ++ [LF])) l).
Proof.
  apply (forEach_emit jsstring
           (fun u => Write s ((lit "USER " ++ u) ++ [LF]))).
Qed.

Lemma handleWho_list w s d :
  getData w s = Some d -> loggedIn d = true -> clients w <> [] ->
  handleWho s w
  = Some (tt, w,
          map (fun u => Write s ((lit "USER " ++ u) ++ [LF]))
            (JsMap.keys (clients w))).
Proof.
  intros E L C. unfold handleWho, bind, getW. cbn beta iota.
  rewrite E, L. cbn [negb].
  destruct (List.length (JsMap.keys (clients w)) =? 0) eqn:Z.
  - apply Nat.eqb_eq in Z. destruct (clients w); [contradiction|discriminate].
  - rewrite forEach_user. reflexivity.
Qed.

Lemma handleDirectMessage_anonymous w s d target text :
  getData w s = Some d -> loggedIn d = false ->
  handleDirectMessage s target text w
  = Some (tt, w, reply s "ERR not-logged-in").
Proof. intros E L. run_handler. rewrite E, L. reflexivity. Qed.

Lemma handleDirectMessage_format w s d target text :
  getData w s = Some d -> loggedIn d = true ->
  negb (truthy target) || negb (truthy text) = true ->
  handleDirectMessage s target text w
  = Some (tt, w, reply s "ERR invalid-dm-format").
Proof.
  intros E L F. run_handler. rewrite E, L. simpl. rewrite F. reflexivity.
Qed.

Lemma handleDirectMessage_self w s d target text :
  getData w s = Some d -> loggedIn d = true ->
  truthy target = true -> truthy text = true ->
  target = usernameText d ->
  handleDirectMessage s target text w
  = Some (tt, w, reply s "ERR cannot-dm-self").
Proof.
  intros E L T1 T2 ->. run_handler. rewrite E, L, T1, T2. simpl.
  rewrite str_eqb_refl. reflexivity.
Qed.

Lemma handleDirectMessage_absent w s d target text :
  getData w s = Some d -> loggedIn d = true ->
  truthy target = true -> truthy text = true ->
  target <> usernameText d ->
  JsMap.get str_eqb (clients w) target = None ->
  handleDirectMessage s target text w
  = Some (tt, w, reply s "ERR user-not-found").
Proof.
  intros E L T1 T2 Hne G. run_handler. rewrite E, L, T1, T2. simpl.
  apply str_eqb_neq in Hne. rewrite Hne, G. reflexivity.
Qed.

Lemma handleDirectMessage_sent w s d target text r :
  getData w s = Some d -> loggedIn d = true ->
  truthy target = true -> truthy text = true ->
  target <> usernameText d ->
  JsMap.get str_eqb (clients w) target = Some r ->
  handleDirectMessage s target text w
  = Some (tt, w,
          [Write r ((lit "DM " ++ usernameText d ++ lit " " ++ trim text)
                    ++ [LF]);
           Write s ((lit "DM-SENT " ++ target) ++ [LF])]).
Proof.
  intros E L T1 T2 Hne G. run_handler. rewrite E, L, T1, T2. simpl.
  apply str_eqb_neq in Hne. rewrite Hne, G. reflexivity.
Qed.

(** *** Each handler is sound on a stored record *)

Lemma quiet_reply w s message :
  isBroadcastLine (lit message ++ [LF]) = false -> quiet w (reply s message).
Proof. intros H. apply quiet_write. exact H. Qed.

Lemma J_same_clients w w' tr :
  clients w' = clients w -> J w tr -> J w' tr.
Proof. intros Hc [H1 H2]. constructor; [exact H1|]. rewrite Hc. exact H2. Qed.

Lemma handleLogin_soundLine w s d u :
  Inv w -> getData w s = Some d -> soundLine w (handleLogin s u w).
Proof.
  intros HI E. destruct (loggedIn d) eqn:L.
  { rewrite (handleLogin_already w s d u E L).
    apply soundLine_quiet; [exact HI | apply quiet_reply; reflexivity]. }
  destruct (isValidUsername u) eqn:V.
  2:{ rewrite (handleLogin_invalid w s d u E L V).
      apply soundLine_quiet; [exact HI | apply quiet_reply; reflexivity]. }
  destruct (JsMap.has str_eqb (clients w) u) eqn:T.
  { rewrite (handleLogin_taken w s d u E L V T).
    apply soundLine_quiet; [exact HI | apply quiet_reply; reflexivity]. }
  rewrite (handleLogin_success w s d u E L V T).
  eexists _, _. split; [reflexivity|].
  split; [apply Inv_loginWorld; assumption|].
  split.
  { intros t x Hx. unfold getData; simpl.
    destruct (Nat.eq_dec t s) as [->|Ht].
    - rewrite JsMapFacts.get_set_same by apply nat_eqb_spec.
      eexists; split; [reflexivity|]. simpl. congruence.
    - rewrite JsMapFacts.get_set_other by (apply nat_eqb_spec || exact Ht).
      eauto. }
  intros tr HJ. apply (J_step w _ tr _ HJ).
  - apply quiet_app; [apply quiet_reply; reflexivity|].
    intros t m Hin _. apply In_deliver in Hin.
    destruct Hin as [t' [Ht Heq]]. injection Heq as <- _.
    apply In_recipients in Ht. destruct Ht as [u' [Hu Hne]].
    simpl in Hu. apply JsMapFacts.In_set in Hu; [|apply str_eqb_eq].
    destruct Hu as [Hu|Hu]; [eauto|].
    injection Hu as _ ->. simpl in Hne.
    rewrite Nat.eqb_refl in Hne. discriminate.
  - intros u' t Hin. simpl in Hin.
    apply JsMapFacts.In_set in Hin; [|apply str_eqb_eq].
    destruct Hin as [Hin|Hin]; [left; exact Hin|].
    injection Hin as _ ->. right. left. reflexivity.
Qed.

Lemma handleMessage_soundLine w s d text :
  Inv w -> getData w s = Some d -> soundLine w (handleMessage s text w).
Proof.
  intros HI E. destruct (loggedIn d) eqn:L.
  2:{ rewrite (handleMessage_anonymous w s d text E L).
      apply soundLine_quiet; [exact HI | apply quiet_reply; reflexivity]. }
  destruct (blank text) eqn:B.
  { rewrite (handleMessage_blank w s d text E L B).
    apply soundLine_quiet; [exact HI | apply quiet_reply; reflexivity]. }
  rewrite (handleMessage_fanout w s d text E L B).
  apply soundLine_quiet; [exact HI | apply quiet_deliver; auto].
Qed.

Lemma handleWho_soundLine w s d :
  Inv w -> getData w s = Some d -> soundLine w (handleWho s w).
Proof.
  intros HI E. destruct (loggedIn d) eqn:L.
  2:{ rewrite (handleWho_anonymous w s d E L).
      apply soundLine_quiet; [exact HI | apply quiet_reply; reflexivity]. }
  destruct (clients w) as [|e r] eqn:C.
  { rewrite (handleWho_empty w s d E L C).
    apply soundLine_quiet; [exact HI|].
    apply (quiet_index w s d _ HI E L). }
  rewrite (handleWho_list w s d E L) by (rewrite C; discriminate).
  apply soundLine_quiet; [exact HI|].
  intros t m Hin Hb. apply in_map_iff in Hin.
  destruct Hin as [u [Heq _]]. injection Heq as _ <-. discriminate Hb.
Qed.

Lemma handleDirectMessage_soundLine w s d target text :
  Inv w -> getData w s = Some d ->
  soundLine w (handleDirectMessage s target text w).
Proof.
  intros HI E. destruct (loggedIn d) eqn:L.
  2:{ rewrite (handleDirectMessage_anonymous w s d target text E L).
      apply soundLine_quiet; [exact HI | apply quiet_reply; reflexivity]. }
  destruct (truthy target) eqn:T1.
  2:{ rewrite (handleDirectMessage_format w s d target text E L)
        by (rewrite T1; reflexivity).
      apply soundLine_quiet; [exact HI | apply quiet_reply; reflexivity]. }
  destruct (truthy text) eqn:T2.
  2:{ rewrite (handleDirectMessage_format w s d target text E L)
        by (rewrite T1, T2; reflexivity).
      apply soundLine_quiet; [exact HI | apply quiet_reply; reflexivity]. }
  destruct (list_eq_dec N.eq_dec target (usernameText d)) as [Heq|Hne].
  { rewrite (handleDirectMessage_self w s d target text E L T1 T2 Heq).
    apply soundLine_quiet; [exact HI | apply quiet_reply; reflexivity]. }
  destruct (JsMap.get str_eqb (clients w) target) as [r|] eqn:G.
  - rewrite (handleDirectMessage_sent w s d target text r E L T1 T2 Hne G).
    apply soundLine_quiet; [exact HI|].
    apply (quiet_app w [_] [_]); apply quiet_write; reflexivity.
  - rewrite (handleDirectMessage_absent w s d target text E L T1 T2 Hne G).
    apply soundLine_quiet; [exact HI | apply quiet_reply; reflexivity].
Qed.

Lemma handlePing_soundLine w s : Inv w -> soundLine w (handlePing s w).
Proof.
  intros HI. apply soundLine_quiet; [exact HI|].
  apply quiet_write. reflexivity.
Qed.

(* ================================================================== *)
(** ** Lines, chunks and events *)

Ltac conjs := repeat match goal with |- _ /\ _ => split end.

Lemma soundLine_touched w s now :
  Inv w -> soundLine w (updateActivity s now w).
Proof.
  intros HI. rewrite updateActivity_run. exists (touched w s now), [].
  split; [reflexivity|]. split; [apply Inv_touched; exact HI|].
  assert (Hc : clients (touched w s now) = clients w).
  { unfold touched. destruct (getData w s); reflexivity. }
  split.
  - unfold touched. destruct (getData w s) as [d|] eqn:E;
      [|apply sameBuffers_refl].
    apply (sameBuffers_setData w s d); [exact E | reflexivity].
  - intros tr HJ. rewrite app_nil_r.
    apply (J_same_clients w _ tr Hc HJ).
Qed.

Lemma releasedClients_sub w s e :
  In e (releasedClients w s) -> In e (clients w).
Proof.
  unfold releasedClients. destruct (getData w s) as [d|]; [|auto].
  destruct (loggedIn d); [|auto]. apply JsMapFacts.In_delete.
Qed.

Lemma quiet_departure w s notify : quiet w (departure w s notify).
Proof.
  unfold departure. destruct (getData w s) as [d|] eqn:E; [|apply quiet_nil].
  destruct (loggedIn d && notify); [|apply quiet_nil].
  intros t m Hin _. apply In_deliver in Hin.
  destruct Hin as [t' [Ht Heq]]. injection Heq as <- _.
  apply In_recipients in Ht. destruct Ht as [u [Hu _]].
  exists u. apply (releasedClients_sub w s). exact Hu.
Qed.

Lemma removeUser_sound w s notify :
  Inv w -> sound w (removeUser s notify w).
Proof.
  intros HI. rewrite removeUser_run. eexists _, _.
  split; [reflexivity|]. split; [apply Inv_removed; exact HI|].
  intros tr HJ. apply (J_step w _ tr _ HJ (quiet_departure w s notify)).
  intros u t Hin. left. apply (releasedClients_sub w s). exact Hin.
Qed.

Section ProtocolFacts.

Variable toUpperCase : jsstring -> jsstring.

Lemma processCommand_soundLine w s d line now :
  Inv w -> getData w s = Some d ->
  soundLine w (processCommand toUpperCase s line now w).
Proof.
  intros HI E. unfold processCommand. cbv zeta.
  destruct (truthy (trim line)) eqn:T; cbn [negb].
  2:{ apply soundLine_quiet; [exact HI | apply quiet_nil]. }
  apply soundLine_seq; [apply soundLine_touched; exact HI|].
  intros w1 o1 _ HI1 HB.
  destruct (HB s d E) as [d1 [E1 _]].
  repeat match goal with
  | |- soundLine _ ((if ?c then _ else _) _) => destruct c
  end;
    first
      [ apply soundLine_quiet;
        [exact HI1 | apply quiet_write; reflexivity]
      | apply (handleLogin_soundLine w1 s d1); assumption
      | apply (handleMessage_soundLine w1 s d1); assumption
      | apply (handleWho_soundLine w1 s d1); assumption
      | apply (handleDirectMessage_soundLine w1 s d1); assumption
      | apply handlePing_soundLine; assumption ].
Qed.

Lemma drainLines_S fuel s now w :
  drainLines toUpperCase (S fuel) s now w
  = match getData w s with
    | None => None
    | Some data =>
        match indexOf LF (buffer data) with
        | None => Some (tt, w, [])
        | Some i =>
            match processCommand toUpperCase s (firstn i (buffer data)) now
                    (setData w s
                       (mkData (username data) (lastActivity data)
                          (skipn (S i) (buffer data))))
            with
            | None => None
            | Some (_, w2, o2) =>
                match drainLines toUpperCase fuel s now w2 with
                | None => None
                | Some (_, w3, o3) => Some (tt, w3, o2 ++ o3)
                end
            end
        end
    end.
Proof.
  cbn [drainLines]. unfold bind, getW, putW, ret.
  destruct (getData w s) as [data|]; [|reflexivity].
  destruct (indexOf LF (buffer data)) as [i|]; [|reflexivity].
  destruct (processCommand _ _ _ _ _) as [[[[] w2] o2]|]; [|reflexivity].
  destruct (drainLines _ _ _ _ _) as [[[[] w3] o3]|]; reflexivity.
Qed.

(** With fuel above the length of the buffer the loop ends, and it
    leaves a buffer without a newline. *)
Lemma drainLines_sound fuel s now :
  forall w d,
    Inv w -> getData w s = Some d -> List.length (buffer d) < fuel ->
    exists w' o d',
      drainLines toUpperCase fuel s now w = Some (tt, w', o)
      /\ Inv w' /\ (forall tr, J w tr -> J w' (tr ++ o))
      /\ getData w' s = Some d' /\ indexOf LF (buffer d') = None.
Proof.
  induction fuel as [|fuel IH]; intros w d HI E Hlen; [lia|].
  rewrite drainLines_S, E.
  destruct (indexOf LF (buffer d)) as [i|] eqn:Hi.
  2:{ exists w, [], d. conjs; auto.
      intros tr HJ. rewrite app_nil_r. exact HJ. }
  set (d1 := mkData (username d) (lastActivity d) (skipn (S i) (buffer d))).
  assert (HI1 : Inv (setData w s d1))
    by (apply (Inv_setData w s d d1 HI E); reflexivity).
  destruct (processCommand_soundLine (setData w s d1) s d1
              (firstn i (buffer d)) now HI1 (getData_setData_same w s d1))
    as (w2 & o2 & E2 & I2 & B2 & J2).
  rewrite E2.
  destruct (B2 s d1 (getData_setData_same w s d1)) as [d2 [Ed2 Hb2]].
  destruct (indexOf_Some LF (buffer d) i Hi) as [Hlt _].
  assert (Hlen2 : List.length (buffer d2) < fuel).
  { rewrite Hb2. unfold d1. cbn [buffer]. rewrite length_skipn. lia. }
  destruct (IH w2 d2 I2 Ed2 Hlen2) as (w3 & o3 & d3 & E3 & I3 & J3 & Ed3 & N3).
  rewrite E3. exists w3, (o2 ++ o3), d3.
  conjs; auto.
  intros tr HJ. rewrite app_assoc. apply J3, J2.
  apply (J_same_clients w _ tr); [reflexivity | exact HJ].
Qed.

Lemma onData_sound w s chunk now :
  Inv w -> sound w (onData toUpperCase s chunk now w).
Proof.
  intros HI. unfold onData. unfold bind at 1. unfold getW.
  destruct (getData w s) as [d|] eqn:E.
  2:{ exists w, []. conjs; auto.
      intros tr HJ. rewrite app_nil_r. exact HJ. }
  set (d1 := mkData (username d) (lastActivity d)
               (buffer d ++ toString_utf8 chunk)).
  assert (HI1 : Inv (setData w s d1))
    by (apply (Inv_setData w s d d1 HI E); reflexivity).
  destruct (drainLines_sound (S (List.length (buffer d1))) s now
              (setData w s d1) d1 HI1 (getData_setData_same w s d1)
              (Nat.lt_succ_diag_r _))
    as (w2 & o2 & d2 & E2 & I2 & J2 & Ed2 & _).
  unfold bind, putW, getW. fold d1. cbn [buffer d1] in E2. rewrite E2, Ed2.
  destruct (4096 <? List.length (buffer d2)).
  - eexists _, _. split; [reflexivity|].
    split; [apply (Inv_setData w2 s d2 _ I2 Ed2); reflexivity|].
    intros tr HJ. simpl.
    apply (J_same_clients w2); [reflexivity|].
    rewrite app_assoc. apply J_quiet; [|apply quiet_write; reflexivity].
    apply J2. apply (J_same_clients w); [reflexivity | exact HJ].
  - exists w2, o2. split; [simpl; rewrite app_nil_r; reflexivity|].
    split; [exact I2|]. intros tr HJ. apply J2.
    apply (J_same_clients w); [reflexivity | exact HJ].
Qed.

Lemma onInterval_sound w s now :
  Inv w -> sound w (onInterval s now w).
Proof.
  intros HI. unfold onInterval. unfold bind at 1. unfold getW.
  destruct (getData w s) as [d|] eqn:E.
  2:{ exists w, []. conjs; auto.
      intros tr HJ. rewrite app_nil_r. exact HJ. }
  destruct (IDLE_TIMEOUT_MS <? now - lastActivity d)%Z.
  2:{ exists w, []. conjs; auto.
      intros tr HJ. rewrite app_nil_r. exact HJ. }
  unfold bind, sendToSocket, emit. rewrite removeUser_run.
  eexists _, _. split; [reflexivity|].
  split; [apply Inv_removed; exact HI|].
  intros tr HJ. apply (J_step w _ tr _ HJ).
  - apply (quiet_app w [_]); [apply quiet_write; reflexivity|].
    apply quiet_app; [apply quiet_departure|].
    apply quiet_other. discriminate.
  - intros u t Hin. left. apply (releasedClients_sub w s). exact Hin.
Qed.

Lemma onSigint_run w : onSigint w = Some (tt, w, shutdownEffects w).
Proof.
  unfold onSigint, shutdownEffects, bind, getW.
  rewrite broadcast_run, (forEach_emit socket Destroy). reflexivity.
Qed.

Lemma onSigint_sound w : Inv w -> sound w (onSigint w).
Proof.
  intros HI. rewrite onSigint_run. exists w, (shutdownEffects w).
  split; [reflexivity|]. split; [exact HI|].
  intros tr HJ. apply J_quiet; [exact HJ|].
  apply quiet_app; [apply quiet_deliver; auto|].
  intros t m Hin _. exfalso. apply in_app_or in Hin.
  destruct Hin as [Hin|[Hin|[Hin|[]]]]; try discriminate.
  apply in_map_iff in Hin. destruct Hin as [x [Hx _]]. discriminate.
Qed.

Lemma onServerError_run code w :
  exists o, onServerError code w = Some (tt, w, o)
            /\ (o = [] \/ (o = [Exit 1] /\ code = Some (lit "EADDRINUSE"))).
Proof.
  unfold onServerError. destruct code as [c|]; [|exists []; auto].
  destruct (str_eqb c (lit "EADDRINUSE")) eqn:Ec; [|exists []; auto].
  apply str_eqb_eq in Ec. subst c. exists [Exit 1]. auto.
Qed.

Lemma onServerError_sound code w : Inv w -> sound w (onServerError code w).
Proof.
  intros HI. destruct (onServerError_run code w) as (o & E & Ho).
  exists w, o. split; [exact E|]. split; [exact HI|].
  intros tr HJ. apply J_quiet; [exact HJ|].
  intros t m Hin _. exfalso.
  destruct Ho as [->|[-> _]]; [contradiction|].
  destruct Hin as [Hin|[]]. discriminate.
Qed.

Lemma onConnect_run w now :
  onConnect now w = Some (tt, connected w now, []).
Proof. reflexivity. Qed.

Lemma handle_sound w e : Inv w -> sound w (handle toUpperCase e w).
Proof.
  intros HI. destruct e as [now|s chunk now|s|s|s now| |code]; simpl.
  - rewrite onConnect_run. exists (connected w now), [].
    split; [reflexivity|]. split; [apply Inv_connected; exact HI|].
    intros tr HJ. rewrite app_nil_r.
    apply (J_same_clients w); [reflexivity | exact HJ].
  - apply onData_sound; exact HI.
  - apply removeUser_sound; exact HI.
  - apply removeUser_sound; exact HI.
  - apply onInterval_sound; exact HI.
  - apply onSigint_sound; exact HI.
  - apply onServerError_sound; exact HI.
Qed.

Lemma run_sound es : forall w, Inv w -> sound w (run toUpperCase es w).
Proof.
  induction es as [|e es IH]; intros w HI.
  - exists w, []. conjs; auto.
    intros tr HJ. rewrite app_nil_r. exact HJ.
  - unfold run; simpl. apply sound_seq; [apply handle_sound; exact HI|].
    intros w1 o1 _ HI1. apply IH. exact HI1.
Qed.

Lemma reachable_Inv w : reachable toUpperCase w -> Inv w.
Proof.
  induction 1 as [|w e w' out _ IH Hstep]; [apply Inv_initial|].
  destruct (handle_sound w e IH) as (w1 & o1 & E1 & I1 & _).
  congruence.
Qed.

Lemma run_reachable es :
  forall w w' out,
    reachable toUpperCase w -> run toUpperCase es w = Some (tt, w', out) ->
    reachable toUpperCase w'.
Proof.
  induction es as [|e es IH]; intros w w' out Hr Hrun.
  - injection Hrun as <- _. exact Hr.
  - unfold run in Hrun; simpl in Hrun. apply bind_inv in Hrun.
    destruct Hrun as ([] & w1 & o1 & o2 & H1 & H2 & _).
    apply (IH w1 w' o2); [|exact H2].
    eapply reach_step; [exact Hr | exact H1].
Qed.

Lemma J_initial : J initial [].
Proof.
  constructor; [|intros u t []].
  intros pre t m post H. destruct pre; discriminate.
Qed.

End ProtocolFacts.

(* ================================================================== *)
(** ** Sample runs *)

Lemma lobby_run : run asciiUpper lobbyEvents initial = Some (tt, lobby, []).
Proof. vm_compute. reflexivity. Qed.

Lemma chat_run :
  run asciiUpper chatEvents initial
  = Some (tt, chat,
          [Write 0 OKLINE; Write 1 OKLINE;
           Write 0 (lit "INFO bob joined" ++ [LF])]).
Proof. vm_compute. reflexivity. Qed.

Lemma lobby_reachable : reachable asciiUpper lobby.
Proof.
  apply (run_reachable asciiUpper lobbyEvents initial lobby []);
    [constructor | exact lobby_run].
Qed.

Lemma chat_reachable : reachable asciiUpper chat.
Proof.
  eapply (run_reachable asciiUpper chatEvents initial chat);
    [constructor | exact chat_run].
Qed.

Lemma lobby_Inv : Inv lobby.
Proof. exact (reachable_Inv asciiUpper lobby lobby_reachable). Qed.

Lemma chat_Inv : Inv chat.
Proof. exact (reachable_Inv asciiUpper chat chat_reachable). Qed.

(* ================================================================== *)
(** ** The username index and the session store *)

Lemma Inv_consistent w : Inv w -> registryConsistent w.
Proof.
  intros HI. constructor.
  - intros s1 s2 d1 d2 u E1 E2 U1 U2.
    assert (H1 : JsMap.get str_eqb (clients w) u = Some s1)
      by (apply (inv_index w HI); eauto).
    assert (H2 : JsMap.get str_eqb (clients w) u = Some s2)
      by (apply (inv_index w HI); eauto).
    congruence.
  - intros u s. symmetry. apply (inv_index w HI).
  - apply (inv_clients_nodup w HI).
Qed.

(** C1.  In every reachable state each username is held by at most one
    session and the username index agrees with the session store in both
    directions, with no name listed twice.  Every event is handled to the
    end and leads to a state with the same property, and so do the
    operations on their own: a [LOGIN], the handling of any line, the
    removal of a session, and a firing of the idle timer. *)
Theorem registry_consistent_in_every_reachable_state
  (toUpperCase : jsstring -> jsstring) (w : World) :
  reachable toUpperCase w ->
  registryConsistent w
  /\ (forall e, exists w' out,
        handle toUpperCase e w = Some (tt, w', out)
        /\ registryConsistent w')
  /\ (forall s d n, getData w s = Some d ->
        exists w' out,
          handleLogin s n w = Some (tt, w', out) /\ registryConsistent w')
  /\ (forall s d line now, getData w s = Some d ->
        exists w' out,
          processCommand toUpperCase s line now w = Some (tt, w', out)
          /\ registryConsistent w')
  /\ (forall s notify, exists w' out,
        removeUser s notify w = Some (tt, w', out)
        /\ registryConsistent w')
  /\ (forall s now, exists w' out,
        onInterval s now w = Some (tt, w', out) /\ registryConsistent w').
Proof.
  intros Hr. pose proof (reachable_Inv toUpperCase w Hr) as HI.
  split; [apply Inv_consistent; exact HI|].
  split.
  { intros e. destruct (handle_sound toUpperCase w e HI)
      as (w' & o & E & I & _).
    exists w', o. split; [exact E | apply Inv_consistent; exact I]. }
  split.
  { intros s d n E. destruct (handleLogin_soundLine w s d n HI E)
      as (w' & o & E' & I & _).
    exists w', o. split; [exact E' | apply Inv_consistent; exact I]. }
  split.
  { intros s d line now E.
    destruct (processCommand_soundLine toUpperCase w s d line now HI E)
      as (w' & o & E' & I & _).
    exists w', o. split; [exact E' | apply Inv_consistent; exact I]. }
  split.
  { intros s notify. destruct (removeUser_sound w s notify HI)
      as (w' & o & E' & I & _).
    exists w', o. split; [exact E' | apply Inv_consistent; exact I]. }
  intros s now. destruct (onInterval_sound w s now HI)
    as (w' & o & E' & I & _).
  exists w', o. split; [exact E' | apply Inv_consistent; exact I].
Qed.

Lemma registry_consistent_witness : registryConsistent chat.
Proof.
  exact (proj1 (registry_consistent_in_every_reachable_state
                  asciiUpper chat chat_reachable)).
Defined.

(* ================================================================== *)
(** ** LOGIN *)

Lemma inClass_spec c : inClass c = true <-> inCharset c.
Proof.
  unfold inClass, inCharset.
  rewrite !orb_true_iff, !andb_true_iff, !N.leb_le, !N.eqb_eq. tauto.
Qed.

Lemma isValidUsername_spec n : isValidUsername n = true <-> validName n.
Proof.
  unfold isValidUsername, validName, testUsernameRegex.
  rewrite !andb_true_iff, Nat.ltb_lt, Nat.leb_le. split.
  - intros [[[Ht Hl] Hu] Hr]. split; [lia|].
    destruct n as [|c r]; [discriminate|].
    apply Forall_forall. intros x Hx. apply inClass_spec.
    apply (proj1 (forallb_forall inClass (c :: r)) Hr x Hx).
  - intros [[Hl Hu] Hf]. destruct n as [|c r]; [simpl in Hl; lia|].
    repeat split; try reflexivity; try lia.
    apply forallb_forall. intros x Hx. apply inClass_spec.
    apply (proj1 (Forall_forall inCharset (c :: r)) Hf x Hx).
Qed.

Lemma recipients_app ex (l1 l2 : JsMap.t jsstring socket) :
  recipients ex (l1 ++ l2) = recipients ex l1 ++ recipients ex l2.
Proof. unfold recipients. rewrite filter_app, map_app. reflexivity. Qed.

Lemma recipients_after_login w s d n :
  JsMap.get str_eqb (clients w) n = None ->
  recipients (Some s) (clients (loginWorld w s d n))
  = recipients (Some s) (clients w).
Proof.
  intros G. simpl.
  rewrite (JsMapFacts.set_new _ _ str_eqb (clients w) n s G).
  rewrite recipients_app. unfold recipients at 2. simpl.
  rewrite Nat.eqb_refl. simpl. apply app_nil_r.
Qed.

Lemma recipients_index w ex t :
  Inv w ->
  (In t (recipients ex (clients w)) <->
   isNot t ex = true /\ exists u, JsMap.get str_eqb (clients w) u = Some t).
Proof.
  intros HI. rewrite In_recipients. split.
  - intros [u [Hin Hne]]. split; [exact Hne|]. exists u.
    apply JsMapFacts.In_get;
      [apply str_eqb_eq | apply (inv_clients_nodup w HI) | exact Hin].
  - intros [Hne [u Hu]]. exists u. split; [|exact Hne].
    apply (JsMapFacts.get_In _ _ str_eqb str_eqb_eq). exact Hu.
Qed.

(** The join notice of a [LOGIN] is sent only through the username index:
    with sockets 0 and 1 connected and nobody logged in, [LOGIN bob] on
    socket 1 writes [OK] to socket 1 and nothing to socket 0. *)
Lemma login_join_notice_skips_anonymous_session :
  reachable asciiUpper lobby
  /\ getData lobby 0 = Some (anonymous 0)
  /\ getData lobby 1 = Some (anonymous 0)
  /\ handleLogin 1 (lit "bob") lobby
     = Some (tt,
             mkWorld [(lit "bob", 1)] [(0, anonymous 0); (1, named "bob" 0)] 2,
             [Write 1 OKLINE]).
Proof.
  split; [exact lobby_reachable|]. repeat split.
Qed.

(** C2 (amended).  For a stored session [s] and a name [n], [LOGIN n]
    replies [ERR already-logged-in] when the username of [s] is set;
    otherwise [ERR invalid-username] exactly when [n] is not 1 to 20
    characters of [a-zA-Z0-9_-]; otherwise [ERR username-taken] when [n]
    is in the username index; in these three cases nothing else is
    written and the state is unchanged.  Otherwise the username of [s]
    becomes [n], the index maps [n] to [s], [s] is sent [OK], and the
    join notice goes, in index order, to the other sockets of the
    username index, that is to the other logged-in sessions and to no
    session that has not logged in. *)
Theorem login_cases (w : World) (s : socket) (d : SessionData)
  (n : jsstring) :
  Inv w -> getData w s = Some d ->
  (username d <> None ->
     handleLogin s n w = Some (tt, w, reply s "ERR already-logged-in"))
  /\ (username d = None -> ~ validName n ->
        handleLogin s n w = Some (tt, w, reply s "ERR invalid-username"))
  /\ (username d = None -> validName n ->
        In n (JsMap.keys (clients w)) ->
        handleLogin s n w = Some (tt, w, reply s "ERR username-taken"))
  /\ (username d = None -> validName n ->
        ~ In n (JsMap.keys (clients w)) ->
        handleLogin s n w
        = Some (tt, loginWorld w s d n,
                reply s "OK"
                ++ deliver (lit "INFO " ++ n ++ lit " joined")
                     (recipients (Some s) (clients w)))
        /\ usernameOf (loginWorld w s d n) s = Some n
        /\ JsMap.get str_eqb (clients (loginWorld w s d n)) n = Some s
        /\ (forall t,
              In t (recipients (Some s) (clients w)) <->
              t <> s
              /\ exists u d', JsMap.get str_eqb (clients w) u = Some t
                              /\ getData w t = Some d'
                              /\ username d' = Some u)).
Proof.
  intros HI E.
  assert (Hlog : username d <> None <-> loggedIn d = true).
  { rewrite (Inv_loggedIn w s d HI E).
    destruct (username d) as [u|]; split; try congruence; eauto.
    intros [u Hu]; discriminate. }
  assert (Hanon : username d = None -> loggedIn d = false).
  { intros Hn. unfold loggedIn. rewrite Hn. reflexivity. }
  split.
  { intros Hu. apply (handleLogin_already w s d n E). apply Hlog, Hu. }
  split.
  { intros Hn Hv. apply (handleLogin_invalid w s d n E (Hanon Hn)).
    destruct (isValidUsername n) eqn:V; [|reflexivity].
    apply isValidUsername_spec in V. contradiction. }
  split.
  { intros Hn Hv Hin. apply isValidUsername_spec in Hv.
    apply (handleLogin_taken w s d n E (Hanon Hn) Hv).
    destruct (JsMap.has str_eqb (clients w) n) eqn:T; [reflexivity|].
    apply JsMapFacts.has_false in T.
    apply (JsMapFacts.get_None _ _ str_eqb str_eqb_eq) in T.
    contradiction. }
  intros Hn Hv Hnin. apply isValidUsername_spec in Hv.
  assert (G : JsMap.get str_eqb (clients w) n = None)
    by (apply (JsMapFacts.get_None _ _ str_eqb str_eqb_eq); exact Hnin).
  assert (T : JsMap.has str_eqb (clients w) n = false)
    by (apply JsMapFacts.has_false; exact G).
  split.
  { rewrite (handleLogin_success w s d n E (Hanon Hn) Hv T).
    rewrite (recipients_after_login w s d n G). reflexivity. }
  split.
  { unfold usernameOf, getData. simpl.
    rewrite JsMapFacts.get_set_same by apply nat_eqb_spec. reflexivity. }
  split.
  { simpl. apply JsMapFacts.get_set_same, str_eqb_eq. }
  intros t. rewrite (recipients_index w (Some s) t HI). simpl.
  rewrite negb_true_iff, Nat.eqb_neq. split.
  - intros [Hne [u Hu]]. split; [exact Hne|].
    destruct (proj1 (inv_index w HI u t) Hu) as [d' [Hd' Hu']].
    exists u, d'. auto.
  - intros [Hne (u & d' & Hu & _)]. split; [exact Hne | eauto].
Qed.

Lemma login_cases_witness :
  handleLogin 2 (lit "alice") chat
  = Some (tt, chat, reply 2 "ERR username-taken").
Proof.
  refine (proj1 (proj2 (proj2
            (login_cases chat 2 (anonymous 0) (lit "alice") chat_Inv eq_refl)))
          eq_refl _ _).
  - split; [simpl; lia|].
    repeat constructor; vm_compute; intuition discriminate.
  - simpl. left. reflexivity.
Defined.

(* ================================================================== *)
(** ** Shutdown *)

Lemma In_keys_getData w t :
  In t (JsMap.keys (socketData w)) <-> exists d, getData w t = Some d.
Proof.
  unfold getData. split.
  - intros H. destruct (JsMap.get Nat.eqb (socketData w) t) as [d|] eqn:E;
      [eauto|].
    apply (JsMapFacts.get_None _ _ Nat.eqb nat_eqb_spec) in E. contradiction.
  - intros [d E] .
    destruct (in_dec Nat.eq_dec t (JsMap.keys (socketData w))) as [H|H];
      [exact H|].
    apply (JsMapFacts.get_None _ _ Nat.eqb nat_eqb_spec) in H. congruence.
Qed.

Lemma recipients_logged_in w t :
  Inv w ->
  (In t (recipients None (clients w)) <->
   exists d u, getData w t = Some d /\ username d = Some u).
Proof.
  intros HI. rewrite (recipients_index w None t HI). simpl. split.
  - intros [_ [u Hu]]. apply (inv_index w HI) in Hu.
    destruct Hu as [d [Hd Hu]]. eauto.
  - intros (d & u & Hd & Hu). split; [reflexivity|]. exists u.
    apply (inv_index w HI). eauto.
Qed.

(** The shutdown notice is sent only through the username index: with
    [alice] and [bob] logged in and socket 2 connected but not logged in,
    [SIGINT] writes the notice to sockets 0 and 1 only, and destroys all
    three sockets. *)
Lemma shutdown_notice_skips_anonymous_session :
  reachable asciiUpper chat
  /\ getData chat 2 = Some (anonymous 0)
  /\ onSigint chat
     = Some (tt, chat,
             [Write 0 (lit "INFO server-shutting-down" ++ [LF]);
              Write 1 (lit "INFO server-shutting-down" ++ [LF]);
              Destroy 0; Destroy 1; Destroy 2; CloseServer; Exit 0]).
Proof.
  split; [exact chat_reachable|]. split; reflexivity.
Qed.

(** C3 (amended).  On the interrupt signal [SIGINT], the only signal
    the process listens for, the server writes
    [INFO server-shutting-down] to every logged-in session, that is to
    the sockets of the username index and to no session that has not
    logged in, then destroys the socket of every stored session, logged in
    or not, then closes the listening server and exits with code 0; the
    maps are left as they are. *)
Theorem shutdown_sequence (w : World) :
  Inv w ->
  let out :=
    deliver (lit "INFO server-shutting-down") (recipients None (clients w))
    ++ map Destroy (JsMap.keys (socketData w))
    ++ [CloseServer; Exit 0] in
  onSigint w = Some (tt, w, out)
  /\ (forall t,
        In (Write t (lit "INFO server-shutting-down" ++ [LF])) out <->
        exists d u, getData w t = Some d /\ username d = Some u)
  /\ (forall t d m,
        getData w t = Some d -> username d = None -> ~ In (Write t m) out)
  /\ (forall t, In (Destroy t) out <-> exists d, getData w t = Some d).
Proof.
  intros HI out.
  assert (Hw : forall t m, In (Write t m) out ->
                 In t (recipients None (clients w))
                 /\ m = lit "INFO server-shutting-down" ++ [LF]).
  { intros t m Hin. unfold out in Hin. apply in_app_or in Hin.
    destruct Hin as [Hin|Hin].
    - apply In_deliver in Hin. destruct Hin as [t' [Ht Heq]].
      injection Heq as -> ->. auto.
    - exfalso. apply in_app_or in Hin.
      destruct Hin as [Hin|[Hin|[Hin|[]]]]; try discriminate.
      apply in_map_iff in Hin. destruct Hin as [x [Hx _]]. discriminate. }
  split; [apply onSigint_run|]. split; [|split].
  - intros t. rewrite <- (recipients_logged_in w t HI). split.
    + intros Hin. apply (Hw t _ Hin).
    + intros Hin. unfold out. apply in_or_app. left.
      apply In_deliver. eauto.
  - intros t d m E Hn Hin. apply Hw in Hin. destruct Hin as [Hin _].
    apply (recipients_logged_in w t HI) in Hin.
    destruct Hin as (d' & u & E' & Hu). congruence.
  - intros t. rewrite <- In_keys_getData. unfold out. split.
    + intros Hin. apply in_app_or in Hin. destruct Hin as [Hin|Hin].
      * apply In_deliver in Hin. destruct Hin as [x [_ Hx]]. discriminate.
      * apply in_app_or in Hin.
        destruct Hin as [Hin|[Hin|[Hin|[]]]]; try discriminate.
        apply in_map_iff in Hin. destruct Hin as [x [Hx Hin]].
        injection Hx as <-. exact Hin.
    + intros Hin. apply in_or_app. right. apply in_or_app. left.
      apply in_map. exact Hin.
Qed.

Lemma shutdown_sequence_witness :
  onSigint chat
  = Some (tt, chat,
          deliver (lit "INFO server-shutting-down")
            (recipients None (clients chat))
          ++ map Destroy (JsMap.keys (socketData chat))
          ++ [CloseServer; Exit 0]).
Proof. exact (proj1 (shutdown_sequence chat chat_Inv)). Defined.

(* ================================================================== *)
(** ** MSG *)

(** The fan-out of [MSG] goes only through the username index: [MSG hi]
    from [bob] is written to the sockets of [alice] and [bob] and not to
    socket 2, which is connected but not logged in. *)
Lemma message_fanout_skips_anonymous_session :
  reachable asciiUpper chat
  /\ getData chat 2 = Some (anonymous 0)
  /\ handleMessage 1 (lit "hi") chat
     = Some (tt, chat,
             [Write 0 (lit "MSG bob hi" ++ [LF]);
              Write 1 (lit "MSG bob hi" ++ [LF])]).
Proof.
  split; [exact chat_reachable|]. split; reflexivity.
Qed.

(** C4 (amended).  For a stored session [s] and a text [t]: when [s] is
    not logged in, [MSG t] replies [ERR not-logged-in] and writes to no
    one else; when [s] is logged in and [t] is empty after trimming it
    replies [ERR empty-message] and writes to no one else; when [s] is
    logged in as [u] and the trimmed text is not empty, the line
    [MSG u <trimmed t>] is written to every logged-in session, that is to
    the sockets of the username index, the sender among them, and to no
    session that has not logged in.  The state is unchanged in all three
    cases.  The handler is what [processCommand] calls with the rest of
    the trimmed line after the verb ([processCommand_msg]); a [MSG] with
    nothing after it is answered [ERR empty-message] before the session
    is looked at ([processCommand_bare]). *)
Theorem message_cases (w : World) (s : socket) (d : SessionData)
  (t : jsstring) :
  Inv w -> getData w s = Some d ->
  (username d = None ->
     handleMessage s t w = Some (tt, w, reply s "ERR not-logged-in"))
  /\ (forall u, username d = Some u ->
        (trim t = [] ->
           handleMessage s t w = Some (tt, w, reply s "ERR empty-message"))
        /\ (trim t <> [] ->
              handleMessage s t w
              = Some (tt, w,
                      deliver (lit "MSG " ++ u ++ lit " " ++ trim t)
                        (recipients None (clients w)))
              /\ In s (recipients None (clients w))
              /\ (forall r,
                    In r (recipients None (clients w)) <->
                    exists d' u', getData w r = Some d'
                                  /\ username d' = Some u'))).
Proof.
  intros HI E. split.
  { intros Hn. apply (handleMessage_anonymous w s d t E).
    unfold loggedIn. rewrite Hn. reflexivity. }
  intros u Hu.
  assert (L : loggedIn d = true)
    by (apply (Inv_loggedIn w s d HI E); eauto).
  split.
  { intros Hb. apply (handleMessage_blank w s d t E L).
    apply blank_trim. exact Hb. }
  intros Hb. split; [|split].
  - rewrite (handleMessage_fanout w s d t E L).
    + unfold usernameText. rewrite Hu. reflexivity.
    + destruct (blank t) eqn:B; [|reflexivity].
      apply blank_trim in B. contradiction.
  - apply (recipients_logged_in w s HI). eauto.
  - intros r. apply (recipients_logged_in w r HI).
Qed.

Lemma message_cases_witness :
  handleMessage 2 (lit "hello") chat
  = Some (tt, chat, reply 2 "ERR not-logged-in").
Proof.
  exact (proj1 (message_cases chat 2 (anonymous 0) (lit "hello")
                  chat_Inv eq_refl) eq_refl).
Defined.

(* ================================================================== *)
(** ** DM *)



(* ================================================================== *)
(** ** The text of a DM *)

Lemma trimStart_head s c r :
  trimStart s = c :: r -> isWhiteSpace c = false.
Proof.
  induction s as [|x s IH]; simpl; [discriminate|].
  destruct (isWhiteSpace x) eqn:W; [exact IH|].
  intros H; injection H as <- _. exact W.
Qed.

(** A trimmed line does not end in a space. *)
Lemma trim_not_ending_in_space line p : trim line <> p ++ [SP].
Proof.
  unfold trim, trimEnd. intros H.
  apply (f_equal (@rev N)) in H. rewrite rev_involutive, rev_app_distr in H.
  simpl in H. apply trimStart_head in H. discriminate.
Qed.

Lemma bind_updateActivity (A : Type) s now (k : unit -> M A) w :
  bind (updateActivity s now) k w = k tt (touched w s now).
Proof.
  unfold bind. rewrite updateActivity_run.
  destruct (k tt (touched w s now)) as [[[b w2] o2]|]; reflexivity.
Qed.

Lemma getData_touched w s d now :
  getData w s = Some d ->
  getData (touched w s now) s = Some (mkData (username d) now (buffer d)).
Proof.
  intros E. unfold touched. rewrite E. apply getData_setData_same.
Qed.

Lemma clients_touched w s now : clients (touched w s now) = clients w.
Proof. unfold touched. destruct (getData w s); reflexivity. Qed.

Lemma split_single (sep : N) (p : jsstring) :
  ~ In sep p -> split sep p = [p].
Proof.
  induction p as [|c p IH]; intros Hp; simpl; [reflexivity|].
  destruct (N.eqb c sep) eqn:E.
  - apply N.eqb_eq in E. exfalso; apply Hp; left; auto.
  - rewrite IH; [reflexivity|]. intros H; apply Hp; right; exact H.
Qed.

Section Dispatch.

Variable toUpperCase : jsstring -> jsstring.

(** A line that is empty after trimming is ignored. *)
Lemma processCommand_empty s line now w :
  trim line = [] ->
  processCommand toUpperCase s line now w = Some (tt, w, []).
Proof.
  intros Ht. unfold processCommand. cbv zeta. rewrite Ht. reflexivity.
Qed.

(** A verb on its own: [LOGIN], [MSG] and [DM] are answered by
    [processCommand] itself, before any handler looks at the session. *)
Lemma processCommand_bare s line now w verb message :
  trim line = verb -> verb <> [] -> ~ In SP verb ->
  (toUpperCase verb = lit "LOGIN" /\ message = "ERR missing-username"%string)
  \/ (toUpperCase verb = lit "MSG" /\ message = "ERR empty-message"%string)
  \/ (toUpperCase verb = lit "DM"
      /\ message = "ERR invalid-dm-format"%string) ->
  processCommand toUpperCase s line now w
  = Some (tt, touched w s now, reply s message).
Proof.
  intros Ht Hne Hv Hup. unfold processCommand. cbv zeta. rewrite Ht.
  assert (Htr : truthy verb = true)
    by (destruct verb; [contradiction | reflexivity]).
  rewrite Htr. cbn [negb]. rewrite bind_updateActivity.
  rewrite (split_single SP verb Hv). cbn [nth List.length].
  destruct Hup as [[-> ->]|[[-> ->]|[-> ->]]]; reflexivity.
Qed.

(** [LOGIN] with a second token: the handler gets that token. *)
Lemma processCommand_login s line now w verb rest :
  trim line = verb ++ SP :: rest -> ~ In SP verb ->
  toUpperCase verb = lit "LOGIN" ->
  processCommand toUpperCase s line now w
  = handleLogin s (nth 0 (split SP rest) []) (touched w s now).
Proof.
  intros Ht Hv Hup. unfold processCommand. cbv zeta. rewrite Ht.
  assert (Hne : truthy (verb ++ SP :: rest) = true)
    by (destruct verb; reflexivity).
  rewrite Hne. cbn [negb]. rewrite bind_updateActivity.
  rewrite (split_app SP verb rest Hv). cbn [nth]. rewrite Hup.
  change (str_eqb (lit "LOGIN") (lit "LOGIN")) with true. cbv iota.
  pose proof (split_not_nil SP rest) as Hs.
  destruct (split SP rest) as [|p ps] eqn:Hsp; [contradiction|].
  reflexivity.
Qed.

(** [MSG] with more after the verb: the handler gets the rest of the
    trimmed line as it stands. *)
Lemma processCommand_msg s line now w verb rest :
  trim line = verb ++ SP :: rest -> ~ In SP verb ->
  toUpperCase verb = lit "MSG" ->
  processCommand toUpperCase s line now w
  = handleMessage s rest (touched w s now).
Proof.
  intros Ht Hv Hup. unfold processCommand. cbv zeta. rewrite Ht.
  assert (Hne : truthy (verb ++ SP :: rest) = true)
    by (destruct verb; reflexivity).
  rewrite Hne. cbn [negb]. rewrite bind_updateActivity.
  rewrite (split_app SP verb rest Hv). cbn [nth]. rewrite Hup.
  change (str_eqb (lit "MSG") (lit "LOGIN")) with false.
  change (str_eqb (lit "MSG") (lit "MSG")) with true. cbv iota.
  pose proof (split_not_nil SP rest) as Hs.
  destruct (split SP rest) as [|p ps] eqn:Hsp; [contradiction|].
  cbn [List.length Nat.ltb Nat.leb]. unfold slice. cbn [skipn].
  rewrite <- Hsp, join_split. reflexivity.
Qed.

(** [WHO], with or without anything after it: the handler is called. *)
Lemma processCommand_who s line now w verb tail :
  trim line = verb ++ tail -> verb <> [] -> ~ In SP verb ->
  tail = [] \/ (exists rest, tail = SP :: rest) ->
  toUpperCase verb = lit "WHO" ->
  processCommand toUpperCase s line now w = handleWho s (touched w s now).
Proof.
  intros Ht Hne Hv Htail Hup. unfold processCommand. cbv zeta. rewrite Ht.
  assert (Htr : truthy (verb ++ tail) = true)
    by (destruct verb; [contradiction | reflexivity]).
  rewrite Htr. cbn [negb]. rewrite bind_updateActivity.
  destruct Htail as [->|[rest ->]].
  - rewrite app_nil_r, (split_single SP verb Hv). cbn [nth]. rewrite Hup.
    reflexivity.
  - rewrite (split_app SP verb rest Hv). cbn [nth]. rewrite Hup.
    reflexivity.
Qed.

(** [DM] with a target and nothing after it. *)
Lemma processCommand_dm_short s line now w verb target :
  trim line = verb ++ SP :: target -> ~ In SP verb -> ~ In SP target ->
  toUpperCase verb = lit "DM" ->
  processCommand toUpperCase s line now w
  = Some (tt, touched w s now, reply s "ERR invalid-dm-format").
Proof.
  intros Ht Hv Htg Hup. unfold processCommand. cbv zeta. rewrite Ht.
  assert (Hne : truthy (verb ++ SP :: target) = true)
    by (destruct verb; reflexivity).
  rewrite Hne. cbn [negb]. rewrite bind_updateActivity.
  rewrite (split_app SP verb target Hv), (split_single SP target Htg).
  cbn [nth List.length]. rewrite Hup. reflexivity.
Qed.

(** The dispatch of a line whose first token upper-cases to [DM] and
    which has a second token and more. *)
Lemma processCommand_dm s line now w verb target rest :
  trim line = verb ++ SP :: target ++ SP :: rest ->
  ~ In SP verb -> ~ In SP target ->
  toUpperCase verb = lit "DM" ->
  processCommand toUpperCase s line now w
  = handleDirectMessage s target rest (touched w s now).
Proof.
  intros Ht Hv Htg Hup. unfold processCommand. cbv zeta. rewrite Ht.
  assert (Hne : truthy (verb ++ SP :: target ++ SP :: rest) = true)
    by (destruct verb; reflexivity).
  rewrite Hne. cbn [negb]. rewrite bind_updateActivity.
  rewrite (split_app SP verb (target ++ SP :: rest) Hv).
  rewrite (split_app SP target rest Htg).
  cbn [nth]. rewrite Hup.
  change (str_eqb (lit "DM") (lit "LOGIN")) with false.
  change (str_eqb (lit "DM") (lit "MSG")) with false.
  change (str_eqb (lit "DM") (lit "WHO")) with false.
  change (str_eqb (lit "DM") (lit "DM")) with true.
  cbv iota.
  pose proof (split_not_nil SP rest) as Hs.
  destruct (split SP rest) as [|p ps] eqn:Hsp; [contradiction|].
  cbn [List.length Nat.ltb Nat.leb]. unfold slice. cbn [skipn].
  rewrite <- Hsp, join_split. reflexivity.
Qed.

End Dispatch.

Lemma valid_no_space u : isValidUsername u = true -> ~ In SP u.
Proof.
  unfold isValidUsername. intros H Hin.
  apply andb_true_iff in H. destruct H as [_ H].
  unfold testUsernameRegex in H. destruct u as [|c r]; [contradiction|].
  apply (proj1 (forallb_forall inClass (c :: r)) H) in Hin. discriminate.
Qed.

(** A [DM] line of three tokens or more whose target is the sender's own
    name is answered [ERR cannot-dm-self]. *)
Lemma dm_line_to_own_name (toUpperCase : jsstring -> jsstring) w s d u
  line verb rest now :
  Inv w -> getData w s = Some d -> username d = Some u ->
  trim line = verb ++ SP :: u ++ SP :: rest -> ~ In SP verb ->
  toUpperCase verb = lit "DM" ->
  processCommand toUpperCase s line now w
  = Some (tt, touched w s now, reply s "ERR cannot-dm-self").
Proof.
  intros HI E Hu Ht Hv Hup.
  pose proof (inv_valid w HI s d u E Hu) as V.
  rewrite (processCommand_dm toUpperCase s line now w verb u rest Ht Hv
             (valid_no_space u V) Hup).
  apply (handleDirectMessage_self (touched w s now) s
           (mkData (username d) now (buffer d)) u rest).
  - apply getData_touched, E.
  - unfold loggedIn. cbn [username]. rewrite Hu. apply valid_truthy, V.
  - apply valid_truthy, V.
  - destruct rest; [|reflexivity]. exfalso.
    apply (trim_not_ending_in_space line (verb ++ SP :: u)).
    rewrite Ht, <- app_assoc. reflexivity.
  - unfold usernameText. cbn [username]. rewrite Hu. reflexivity.
Qed.

(** The spacing of a DM text is kept: [DM bob hi   there] from [alice]
    delivers [DM alice hi   there], with the three spaces of the input. *)
Lemma dm_text_keeps_runs_of_spaces :
  reachable asciiUpper chat
  /\ processCommand asciiUpper 0 (lit "DM bob hi   there") 5 chat
     = Some (tt, touched chat 0 5,
             [Write 1 (lit "DM alice hi   there" ++ [LF]);
              Write 0 (lit "DM-SENT bob" ++ [LF])]).
Proof.
  split; [exact chat_reachable | reflexivity].
Qed.

(** C6 (amended).  For every DM line, that is a line whose trimmed form
    is a verb that upper-cases to [DM], one space, a target token, one
    space and a remainder, the text handed to the handler is that
    remainder as it stands: splitting at single spaces and joining with
    single spaces gives the remainder back, so runs of spaces between
    words are kept as they are.  For a logged-in sender [u] and a target
    in the username index other than [u], the line written to the target
    is [DM u] followed by the trimmed remainder, and the sender is sent
    [DM-SENT <target>]. *)
Theorem dm_text_is_remainder_verbatim
  (toUpperCase : jsstring -> jsstring) (w : World) (s : socket)
  (d : SessionData) (u line verb target rest : jsstring) (r : socket)
  (now : Z) :
  Inv w -> getData w s = Some d -> username d = Some u ->
  trim line = verb ++ SP :: target ++ SP :: rest ->
  ~ In SP verb -> ~ In SP target -> toUpperCase verb = lit "DM" ->
  target <> [] -> target <> u ->
  JsMap.get str_eqb (clients w) target = Some r ->
  join SP (split SP rest) = rest
  /\ join SP (slice 2 (split SP (trim line))) = rest
  /\ processCommand toUpperCase s line now w
     = Some (tt, touched w s now,
             [Write r ((lit "DM " ++ u ++ lit " " ++ trim rest) ++ [LF]);
              Write s ((lit "DM-SENT " ++ target) ++ [LF])]).
Proof.
  intros HI E Hu Ht Hv Htg Hup Hne Hself Hget.
  assert (Hrest : rest <> []).
  { intros ->. apply (trim_not_ending_in_space line (verb ++ SP :: target)).
    rewrite Ht, <- app_assoc. reflexivity. }
  split; [apply join_split|]. split.
  - rewrite Ht, (split_app SP verb (target ++ SP :: rest) Hv),
      (split_app SP target rest Htg).
    unfold slice. cbn [skipn]. apply join_split.
  - rewrite (processCommand_dm toUpperCase s line now w verb target rest
               Ht Hv Htg Hup).
    pose proof (getData_touched w s d now E) as E1.
    rewrite (handleDirectMessage_sent (touched w s now) s _ target rest r E1).
    + unfold usernameText. cbn [username]. rewrite Hu. reflexivity.
    + unfold loggedIn. cbn [username]. rewrite Hu.
      apply valid_truthy. apply (inv_valid w HI s d u E Hu).
    + destruct target; [contradiction | reflexivity].
    + destruct rest; [contradiction | reflexivity].
    + unfold usernameText. cbn [username]. rewrite Hu. exact Hself.
    + rewrite clients_touched. exact Hget.
Qed.

Lemma dm_text_is_remainder_verbatim_witness :
  processCommand asciiUpper 0 (lit "  dm bob  hi   there ") 5 chat
  = Some (tt, touched chat 0 5,
          [Write 1 ((lit "DM " ++ lit "alice" ++ lit " "
                     ++ trim (lit " hi   there")) ++ [LF]);
           Write 0 ((lit "DM-SENT " ++ lit "bob") ++ [LF])]).
Proof.
  refine (proj2 (proj2
    (dm_text_is_remainder_verbatim asciiUpper chat 0 (named "alice" 1)
       (lit "alice") (lit "  dm bob  hi   there ") (lit "dm") (lit "bob")
       (lit " hi   there") 1 5 chat_Inv eq_refl eq_refl eq_refl
       _ _ eq_refl _ _ eq_refl))).
  - vm_compute. intuition discriminate.
  - vm_compute. intuition discriminate.
  - discriminate.
  - discriminate.
Defined.

(* ================================================================== *)
(** ** WHO *)

Lemma NoDup_all_equal (A : Type) (l : list A) (u : A) :
  NoDup l -> (forall x, In x l -> x = u) -> In u l -> l = [u].
Proof.
  intros Hnd Hall Hin. destruct l as [|a l]; [contradiction|].
  pose proof (Hall a (or_introl eq_refl)) as ->.
  destruct l as [|b l]; [reflexivity|].
  pose proof (Hall b (or_intror (or_introl eq_refl))) as ->.
  inversion Hnd as [|? ? Hn _]; subst. exfalso. apply Hn. left. reflexivity.
Qed.

Lemma index_keys_logged_in w s d u :
  Inv w -> getData w s = Some d -> username d = Some u ->
  In u (JsMap.keys (clients w)).
Proof.
  intros HI E Hu.
  assert (G : JsMap.get str_eqb (clients w) u = Some s)
    by (apply (inv_index w HI); eauto).
  apply (JsMapFacts.get_In _ _ str_eqb str_eqb_eq) in G.
  apply (in_map fst) in G. exact G.
Qed.

(** C7.  For a stored session [s]: when [s] is not logged in, [WHO]
    replies [ERR not-logged-in].  When [s] is logged in as [u] it replies
    one [USER] line per username of the index, in the order of the index,
    which lists no name twice, lists [u], and grows at its end with each
    login; so the reply is never [INFO no-users], and when no other
    session is connected it is the single line [USER u].  This is the
    answer of the handler and of the server to every line whose first
    token upper-cases to [WHO], whatever follows the token: such a line
    calls the handler, after the activity stamp of [s] is set. *)
Theorem who_lists_index_in_order (w : World) (s : socket)
  (d : SessionData) :
  Inv w -> getData w s = Some d ->
  (username d = None ->
     handleWho s w = Some (tt, w, reply s "ERR not-logged-in"))
  /\ (forall u, username d = Some u ->
        let out := map (fun n => Write s ((lit "USER " ++ n) ++ [LF]))
                     (JsMap.keys (clients w)) in
        handleWho s w = Some (tt, w, out)
        /\ List.length out = List.length (JsMap.keys (clients w))
        /\ NoDup (JsMap.keys (clients w))
        /\ In (Write s ((lit "USER " ++ u) ++ [LF])) out
        /\ ~ In (Write s (lit "INFO no-users" ++ [LF])) out
        /\ ((forall t d', getData w t = Some d' -> t = s) ->
            out = [Write s ((lit "USER " ++ u) ++ [LF])]))
  /\ (forall t dt n,
        getData w t = Some dt -> username dt = None ->
        isValidUsername n = true ->
        ~ In n (JsMap.keys (clients w)) ->
        JsMap.keys (clients (loginWorld w t dt n))
        = JsMap.keys (clients w) ++ [n])
  /\ (forall toUpperCase line verb tail now,
        trim line = verb ++ tail -> verb <> [] -> ~ In SP verb ->
        tail = [] \/ (exists rest, tail = SP :: rest) ->
        toUpperCase verb = lit "WHO" ->
        processCommand toUpperCase s line now w
        = handleWho s (touched w s now)
        /\ (username d = None ->
            processCommand toUpperCase s line now w
            = Some (tt, touched w s now, reply s "ERR not-logged-in"))
        /\ (forall u, username d = Some u ->
              processCommand toUpperCase s line now w
              = Some (tt, touched w s now,
                      map (fun n => Write s ((lit "USER " ++ n) ++ [LF]))
                        (JsMap.keys (clients w))))).
Proof.
  intros HI E. split; [|split; [|split]].
  4:{ intros toUpperCase line verb tail now Ht Hne Hv Htail Hup.
      pose proof (processCommand_who toUpperCase s line now w verb tail
                    Ht Hne Hv Htail Hup) as Hwho.
      pose proof (getData_touched w s d now E) as E1.
      split; [exact Hwho|]. rewrite Hwho. split.
      - intros Hn. apply (handleWho_anonymous _ s _ E1).
        unfold loggedIn. cbn [username]. rewrite Hn. reflexivity.
      - intros u Hu.
        rewrite (handleWho_list (touched w s now) s _ E1).
        + rewrite clients_touched. reflexivity.
        + unfold loggedIn. cbn [username]. rewrite Hu.
          apply valid_truthy, (inv_valid w HI s d u E Hu).
        + rewrite clients_touched. intros C.
          pose proof (index_keys_logged_in w s d u HI E Hu) as Hin.
          rewrite C in Hin. contradiction. }
  { intros Hn. apply (handleWho_anonymous w s d E).
    unfold loggedIn. rewrite Hn. reflexivity. }
  { intros u Hu out.
    assert (L : loggedIn d = true)
      by (apply (Inv_loggedIn w s d HI E); eauto).
    pose proof (index_keys_logged_in w s d u HI E Hu) as Hin.
    split.
    { apply (handleWho_list w s d E L). intros C. rewrite C in Hin.
      contradiction. }
    split; [apply length_map|].
    split; [apply (inv_clients_nodup w HI)|].
    split; [unfold out; apply in_map_iff; eauto|].
    split.
    { unfold out. intros H. apply in_map_iff in H.
      destruct H as [x [Hx _]]. discriminate. }
    intros Halone. unfold out.
    rewrite (NoDup_all_equal jsstring (JsMap.keys (clients w)) u);
      [reflexivity | apply (inv_clients_nodup w HI) | | exact Hin].
    intros x Hx.
    destruct (JsMap.get str_eqb (clients w) x) as [t|] eqn:G.
    - apply (inv_index w HI) in G. destruct G as [d' [Hd' Hu']].
      pose proof (Halone t d' Hd') as ->. congruence.
    - apply (JsMapFacts.get_None _ _ str_eqb str_eqb_eq) in G.
      contradiction. }
  intros t dt n Et Hn Hv Hnin. simpl.
  apply (JsMapFacts.get_None _ _ str_eqb str_eqb_eq) in Hnin.
  rewrite (JsMapFacts.set_new _ _ str_eqb (clients w) n t Hnin).
  unfold JsMap.keys. rewrite map_app. reflexivity.
Qed.

Lemma who_lists_index_in_order_witness :
  handleWho 1 chat
  = Some (tt, chat,
          [Write 1 (lit "USER alice" ++ [LF]);
           Write 1 (lit "USER bob" ++ [LF])])
  /\ processCommand asciiUpper 1 (lit "who") 9 chat
     = Some (tt, touched chat 1 9,
             [Write 1 (lit "USER alice" ++ [LF]);
              Write 1 (lit "USER bob" ++ [LF])]).
Proof.
  pose proof (who_lists_index_in_order chat 1 (named "bob" 2) chat_Inv
                eq_refl) as H.
  split.
  - exact (proj1 (proj1 (proj2 H) (lit "bob") eq_refl)).
  - refine (proj2 (proj2 (proj2 (proj2 (proj2 H)) asciiUpper (lit "who")
                            (lit "who") [] 9%Z eq_refl _ _ _ eq_refl))
              (lit "bob") eq_refl).
    + discriminate.
    + vm_compute. intuition discriminate.
    + left. reflexivity.
Defined.

(* ================================================================== *)
(** ** Session removal *)

(** C8.  Removing a session twice is the same as removing it once: the
    first [removeUser] ends, and a second one on the state it leaves, with
    either value of [notify], ends too, changes nothing and writes
    nothing, so that the two calls in a row have the state and the output
    of the first. *)
Theorem removal_is_idempotent (w : World) (s : socket)
  (notify notify' : bool) :
  Inv w ->
  exists w1 o1,
    removeUser s notify w = Some (tt, w1, o1)
    /\ removeUser s notify' w1 = Some (tt, w1, [])
    /\ bind (removeUser s notify) (fun _ => removeUser s notify') w
       = Some (tt, w1, o1).
Proof.
  intros HI. exists (removed w s), (departure w s notify).
  assert (Hgone : getData (removed w s) s = None)
    by (apply getData_removed_same, (inv_sessions_nodup w HI)).
  assert (H2 : removeUser s notify' (removed w s)
               = Some (tt, removed w s, [])).
  { rewrite removeUser_run, (removed_absent _ _ Hgone).
    unfold departure. rewrite Hgone. reflexivity. }
  split; [apply removeUser_run|]. split; [exact H2|].
  unfold bind. rewrite removeUser_run, H2, app_nil_r. reflexivity.
Qed.

Lemma removal_is_idempotent_witness :
  bind (removeUser 1 true) (fun _ => removeUser 1 true) chat
  = removeUser 1 true chat.
Proof.
  destruct (removal_is_idempotent chat 1 true true chat_Inv)
    as (w1 & o1 & H1 & _ & H3).
  exact (eq_trans H3 (eq_sym H1)).
Defined.

(* ================================================================== *)
(** ** The input buffer *)

Lemma setData_same w s d : getData w s = Some d -> setData w s d = w.
Proof.
  intros E. unfold setData.
  rewrite (JsMapFacts.set_same _ _ Nat.eqb (socketData w) s d E).
  destruct w; reflexivity.
Qed.

Lemma setData_setData w s d1 d2 :
  setData (setData w s d1) s d2 = setData w s d2.
Proof.
  unfold setData. simpl.
  rewrite (JsMapFacts.set_set _ _ Nat.eqb nat_eqb_spec). reflexivity.
Qed.

(** A chunk of ASCII bytes decodes to one code unit per byte. *)
Lemma toString_utf8_ascii (chunk : list byte) :
  Forall (fun b => (Byte.to_N b < 128)%N) chunk ->
  toString_utf8 chunk = map Byte.to_N chunk.
Proof.
  unfold toString_utf8. induction 1 as [|b r Hb _ IH]; [reflexivity|].
  cbn [map codePoints]. unfold lead.
  replace (Byte.to_N b <=? 127)%N with true
    by (symmetry; apply N.leb_le; lia).
  cbn [app flat_map]. rewrite IH. unfold utf16.
  replace (Byte.to_N b <? 65536)%N with true
    by (symmetry; apply N.ltb_lt; lia).
  reflexivity.
Qed.

Section Buffer.

Variable toUpperCase : jsstring -> jsstring.

(** The ['data'] listener on a stored record. *)
Lemma onData_stored s chunk now w d :
  getData w s = Some d ->
  onData toUpperCase s chunk now w
  = match drainLines toUpperCase
            (S (List.length (buffer d ++ toString_utf8 chunk))) s now
            (setData w s
               (mkData (username d) (lastActivity d)
                  (buffer d ++ toString_utf8 chunk)))
    with
    | None => None
    | Some (_, w2, o2) =>
        match getData w2 s with
        | None => None
        | Some d2 =>
            if 4096 <? List.length (buffer d2) then
              Some (tt,
                    setData w2 s
                      (mkData (username d2) (lastActivity d2) []),
                    o2 ++ reply s "ERR message-too-long")
            else Some (tt, w2, o2)
        end
    end.
Proof.
  intros E. unfold onData, bind, getW, putW, sendToSocket, emit, ret.
  rewrite E.
  destruct (drainLines _ _ _ _ _) as [[[[] w2] o2]|]; [|reflexivity].
  destruct (getData w2 s) as [d2|]; [|reflexivity].
  destruct (4096 <? List.length (buffer d2)); simpl;
    rewrite ?app_nil_r; reflexivity.
Qed.

(** A chunk that completes exactly one line on an empty buffer is
    handled as that line. *)
Lemma onData_one_line w s d chunk line now :
  Inv w -> getData w s = Some d -> buffer d = [] ->
  toString_utf8 chunk = line ++ [LF] -> ~ In LF line ->
  onData toUpperCase s chunk now w
  = processCommand toUpperCase s line now w
  /\ exists w' o,
       processCommand toUpperCase s line now w = Some (tt, w', o).
Proof.
  intros HI E Hb Hc Hn.
  destruct (processCommand_soundLine toUpperCase w s d line now HI E)
    as (w2 & o2 & E2 & I2 & B2 & _).
  split; [|eauto].
  rewrite (onData_stored s chunk now w d E), Hb, Hc. cbn [app].
  rewrite drainLines_S, getData_setData_same. cbn [buffer].
  rewrite (indexOf_app LF line [] Hn), firstn_length_app,
    skipn_length_app, setData_setData.
  cbn [buffer username lastActivity].
  replace (mkData (username d) (lastActivity d) []) with d
    by (destruct d; simpl in Hb; subst; reflexivity).
  rewrite (setData_same w s d E), E2.
  destruct (B2 s d E) as [d2 [Ed2 Hb2]].
  rewrite length_app, Nat.add_comm. cbn [List.length Nat.add].
  rewrite drainLines_S, Ed2, Hb2, Hb. cbn [indexOf].
  rewrite Ed2, Hb2, Hb, app_nil_r. reflexivity.
Qed.

End Buffer.

(** C9 (code defect).  The claim is that an input buffer that exceeds
    4096 bytes without a newline is answered [ERR message-too-long] and
    reset.  The server misses it: the guard compares the length of the
    decoded string, which counts UTF-16 code units, so 4098 bytes without
    a newline that decode to 2049 characters are kept in the buffer and
    nothing is replied. *)
Lemma long_multibyte_input_is_not_rejected :
  reachable asciiUpper lobby
  /\ getData lobby 0 = Some (anonymous 0)
  /\ List.length accented = 4098
  /\ existsb (Byte.eqb x0a) accented = false
  /\ onData asciiUpper 0 accented 7 lobby
     = Some (tt, setData lobby 0 (mkData None 0 (repeat 233%N 2049)), []).
Proof.
  split; [exact lobby_reachable|]. repeat split; vm_compute; reflexivity.
Qed.

(** X18.  What the guard on the buffer does: when the buffer of a stored
    session, with the decoded chunk appended, holds no newline and more
    than 4096 UTF-16 code units (for ASCII input, more than 4096 bytes,
    as each ASCII byte decodes to one code unit), the server replies
    [ERR message-too-long] and empties the buffer; nothing else is
    written, no socket is destroyed and the session stays stored.
    Afterwards a chunk that carries one complete line is handled exactly
    as that line is by [processCommand], which ends. *)
Theorem overlong_input_resets_buffer
  (toUpperCase : jsstring -> jsstring) (w : World) (s : socket)
  (d : SessionData) (chunk : list byte) (now : Z) :
  Inv w -> getData w s = Some d ->
  ~ In LF (buffer d ++ toString_utf8 chunk) ->
  4096 < List.length (buffer d ++ toString_utf8 chunk) ->
  let w' := setData w s (mkData (username d) (lastActivity d) []) in
  onData toUpperCase s chunk now w
  = Some (tt, w', reply s "ERR message-too-long")
  /\ getData w' s = Some (mkData (username d) (lastActivity d) [])
  /\ (Forall (fun b => (Byte.to_N b < 128)%N) chunk ->
      List.length (toString_utf8 chunk) = List.length chunk)
  /\ (forall chunk' line now',
        toString_utf8 chunk' = line ++ [LF] -> ~ In LF line ->
        onData toUpperCase s chunk' now' w'
        = processCommand toUpperCase s line now' w'
        /\ exists w'' o,
             processCommand toUpperCase s line now' w' = Some (tt, w'', o)).
Proof.
  intros HI E Hn Hlen w'. split; [|split; [|split]].
  - rewrite (onData_stored toUpperCase s chunk now w d E).
    rewrite drainLines_S, getData_setData_same. cbn [buffer].
    rewrite (proj2 (indexOf_None LF _) Hn), getData_setData_same.
    cbn [buffer username lastActivity].
    rewrite (proj2 (Nat.ltb_lt _ _) Hlen), setData_setData. reflexivity.
  - apply getData_setData_same.
  - intros Hascii. rewrite (toString_utf8_ascii chunk Hascii).
    apply length_map.
  - intros chunk' line now' Hc Hl.
    apply (onData_one_line toUpperCase w' s
             (mkData (username d) (lastActivity d) []) chunk' line now');
      [|apply getData_setData_same|reflexivity|exact Hc|exact Hl].
    apply (Inv_setData w s d _ HI E). reflexivity.
Qed.

Lemma overlong_input_resets_buffer_witness :
  onData asciiUpper 0 (repeat x61 4097) 7 lobby
  = Some (tt, setData lobby 0 (anonymous 0),
          reply 0 "ERR message-too-long")
  /\ onData asciiUpper 0 (lineOf "PING") 8 (setData lobby 0 (anonymous 0))
     = Some (tt, touched lobby 0 8, reply 0 "PONG").
Proof.
  assert (Hn : ~ In LF (buffer (anonymous 0)
                        ++ toString_utf8 (repeat x61 4097))).
  { apply indexOf_None. vm_compute. reflexivity. }
  assert (Hlen : 4096 < List.length (buffer (anonymous 0)
                                     ++ toString_utf8 (repeat x61 4097))).
  { apply Nat.ltb_lt. vm_compute. reflexivity. }
  pose proof (overlong_input_resets_buffer asciiUpper lobby 0 (anonymous 0)
                (repeat x61 4097) 7 lobby_Inv eq_refl Hn Hlen) as H.
  cbv zeta in H. split; [exact (proj1 H)|].
  destruct (proj2 (proj2 (proj2 H)) (lineOf "PING") (lit "PING") 8%Z eq_refl)
    as [Heq _].
  - vm_compute. intuition discriminate.
  - exact (eq_trans Heq eq_refl).
Defined.

(* ================================================================== *)
(** ** Who receives a broadcast *)

Lemma run_total (toUpperCase : jsstring -> jsstring) (es : list event) :
  exists w out, run toUpperCase es initial = Some (tt, w, out).
Proof.
  destruct (run_sound toUpperCase es initial Inv_initial)
    as (w & o & E & _). eauto.
Qed.

(** C10.  Along every run of the server from its start, a line beginning
    with [INFO ] or [MSG ], as every join notice, message fan-out,
    departure announcement and shutdown notice does, is written to a
    socket only after that socket was sent the [OK] of its own successful
    [LOGIN].  In the state the run ends in, a broadcast writes its line
    exactly to the sockets of the username index other than the excluded
    one, each of which belongs to a stored session with a username, so a
    stored session that has not logged in is not among them. *)
Theorem broadcast_only_reaches_logged_in_sessions
  (toUpperCase : jsstring -> jsstring) (es : list event) (w : World)
  (out : list effect) :
  run toUpperCase es initial = Some (tt, w, out) ->
  (forall pre t m post,
     out = pre ++ Write t m :: post -> isBroadcastLine m = true ->
     In (Write t OKLINE) pre)
  /\ (forall message ex,
        broadcast message ex w
        = Some (tt, w, deliver message (recipients ex (clients w)))
        /\ (forall t, In t (recipients ex (clients w)) ->
                      isNot t ex = true
                      /\ exists u d, JsMap.get str_eqb (clients w) u = Some t
                                     /\ getData w t = Some d
                                     /\ username d = Some u)
        /\ (forall t d m,
              getData w t = Some d -> username d = None ->
              ~ In (Write t m)
                  (deliver message (recipients ex (clients w)))))
  /\ (forall u text,
        isBroadcastLine ((lit "INFO " ++ u ++ lit " joined") ++ [LF]) = true
        /\ isBroadcastLine ((lit "MSG " ++ u ++ lit " " ++ text) ++ [LF])
           = true
        /\ isBroadcastLine ((lit "INFO " ++ u ++ lit " disconnected") ++ [LF])
           = true
        /\ isBroadcastLine (lit "INFO server-shutting-down" ++ [LF]) = true).
Proof.
  intros Hrun.
  destruct (run_sound toUpperCase es initial Inv_initial)
    as (w' & o & E & HI & HJ).
  rewrite Hrun in E. injection E as <- <-.
  assert (Hidx : forall ex t, In t (recipients ex (clients w)) ->
            isNot t ex = true
            /\ exists u d, JsMap.get str_eqb (clients w) u = Some t
                           /\ getData w t = Some d /\ username d = Some u).
  { intros ex t Hin. apply (recipients_index w ex t HI) in Hin.
    destruct Hin as [Hne [u Hu]]. split; [exact Hne|].
    destruct (proj1 (inv_index w HI u t) Hu) as [d [Hd Hud]].
    exists u, d. auto. }
  split; [|split].
  - apply (J_trace w ([] ++ out)). apply HJ. exact J_initial.
  - intros message ex. split; [apply broadcast_run|]. split.
    + intros t Hin. exact (Hidx ex t Hin).
    + intros t d m Hd Hn Hin. apply In_deliver in Hin.
      destruct Hin as [t' [Ht Heq]]. injection Heq as -> _.
      destruct (Hidx ex t' Ht) as [_ (u & d' & _ & Hd' & Hu)]. congruence.
  - intros u text. repeat split.
Qed.

Lemma broadcast_only_reaches_logged_in_sessions_witness :
  In (Write 0 OKLINE) [Write 0 OKLINE; Write 1 OKLINE].
Proof.
  exact (proj1 (broadcast_only_reaches_logged_in_sessions asciiUpper
                  chatEvents chat _ chat_run)
           [Write 0 OKLINE; Write 1 OKLINE] 0
           (lit "INFO bob joined" ++ [LF]) [] eq_refl eq_refl).
Defined.

(* ================================================================== *)
(** ** What a handler can do to the state *)

Lemma handleMessage_state s t w a w' o :
  handleMessage s t w = Some (a, w', o) -> w' = w.
Proof.
  unfold handleMessage, bind, getW. cbn beta iota.
  destruct (getData w s) as [d|]; [|discriminate].
  destruct (negb (loggedIn d)); [intros H; injection H; auto|].
  destruct (negb (truthy t) || (List.length (trim t) =? 0));
    [intros H; injection H; auto|].
  rewrite broadcast_run. intros H; injection H; auto.
Qed.

Lemma handleWho_state s w a w' o :
  handleWho s w = Some (a, w', o) -> w' = w.
Proof.
  unfold handleWho, bind, getW. cbn beta iota.
  destruct (getData w s) as [d|]; [|discriminate].
  destruct (negb (loggedIn d)); [intros H; injection H; auto|].
  destruct (List.length (JsMap.keys (clients w)) =? 0);
    [intros H; injection H; auto|].
  rewrite forEach_user. intros H; injection H; auto.
Qed.

Lemma handleDirectMessage_state s target text w a w' o :
  handleDirectMessage s target text w = Some (a, w', o) -> w' = w.
Proof.
  unfold handleDirectMessage, sendPrivateMessage, bind, getW.
  cbn beta iota.
  destruct (getData w s) as [d|]; [|discriminate].
  destruct (negb (loggedIn d)); [intros H; injection H; auto|].
  destruct (negb (truthy target) || negb (truthy text));
    [intros H; injection H; auto|].
  destruct (str_eqb target (usernameText d)); [intros H; injection H; auto|].
  destruct (JsMap.get str_eqb (clients w) target);
    intros H; injection H; auto.
Qed.

Lemma handleLogin_state s u w a w' o :
  handleLogin s u w = Some (a, w', o) ->
  w' = w
  \/ exists d, getData w s = Some d /\ loggedIn d = false
               /\ isValidUsername u = true
               /\ JsMap.get str_eqb (clients w) u = None
               /\ w' = loginWorld w s d u.
Proof.
  destruct (getData w s) as [d|] eqn:E.
  2:{ unfold handleLogin, bind, getW. cbn beta iota. rewrite E.
      discriminate. }
  destruct (loggedIn d) eqn:L.
  { rewrite (handleLogin_already w s d u E L).
    intros H; injection H; auto. }
  destruct (isValidUsername u) eqn:V.
  2:{ rewrite (handleLogin_invalid w s d u E L V).
      intros H; injection H; auto. }
  destruct (JsMap.has str_eqb (clients w) u) eqn:T.
  { rewrite (handleLogin_taken w s d u E L V T).
    intros H; injection H; auto. }
  rewrite (handleLogin_success w s d u E L V T).
  intros H; injection H as _ <- _. right. exists d.
  apply JsMapFacts.has_false in T. auto.
Qed.

Section Shape.

Variable toUpperCase : jsstring -> jsstring.

(** The handling of a line leaves the state as it is (an empty line),
    or stamps the activity of its socket, or stamps it and logs the
    socket in. *)
Lemma processCommand_shape s line now w a w' o :
  processCommand toUpperCase s line now w = Some (a, w', o) ->
  (trim line = [] /\ w' = w)
  \/ (trim line <> []
      /\ (w' = touched w s now
          \/ exists d u,
               getData (touched w s now) s = Some d
               /\ loggedIn d = false /\ isValidUsername u = true
               /\ JsMap.get str_eqb (clients w) u = None
               /\ w' = loginWorld (touched w s now) s d u)).
Proof.
  unfold processCommand. cbv zeta.
  destruct (trim line) as [|c r] eqn:Ht.
  { intros H; injection H as _ <- _. left. auto. }
  right. split; [discriminate|]. cbn [truthy negb] in H.
  rewrite bind_updateActivity in H. revert H.
  repeat match goal with
  | |- (if ?c then _ else _) _ = _ -> _ => destruct c
  end;
    first
      [ intros H; injection H as _ <- _; left; reflexivity
      | intros H; apply handleMessage_state in H; left; exact H
      | intros H; apply handleWho_state in H; left; exact H
      | intros H; apply handleDirectMessage_state in H; left; exact H
      | intros H; apply handleLogin_state in H;
        destruct H as [H|(d & E & L & V & G & H)];
        [left; exact H
        | right; exists d, (nth 1 (split SP (c :: r)) []);
          rewrite clients_touched in G; auto] ].
Qed.

End Shape.

(* ================================================================== *)
(** ** The first token of a line *)

(** What follows the first token: nothing, or a space and the rest. *)
Lemma split_first_token (tail : jsstring) :
  tail = [] \/ (exists rest, tail = SP :: rest) ->
  exists ps, forall verb,
    ~ In SP verb -> split SP (verb ++ tail) = verb :: ps.
Proof.
  intros [->|[rest ->]].
  - exists []. intros verb Hv. rewrite app_nil_r. apply split_single, Hv.
  - exists (split SP rest). intros verb Hv. apply split_app, Hv.
Qed.

Lemma truthy_app (verb tail : jsstring) :
  verb <> [] -> truthy (verb ++ tail) = true.
Proof. destruct verb; [contradiction | reflexivity]. Qed.

Lemma trimStart_whitespace (line : jsstring) :
  Forall (fun c => isWhiteSpace c = true) line -> trimStart line = [].
Proof.
  induction 1 as [|c r Hc _ IH]; [reflexivity|].
  cbn [trimStart]. rewrite Hc. exact IH.
Qed.

Section FirstToken.

Variable toUpperCase : jsstring -> jsstring.

(** X1.  A line whose first token upper-cases to [PING] is answered
    [PONG], whatever follows the token and whether or not the socket is
    logged in or even stored; nothing else is written and only the
    activity stamp of the socket changes. *)
Theorem ping_is_answered_whoever_asks
  (s : socket) (line verb tail : jsstring) (now : Z) (w : World) :
  trim line = verb ++ tail -> verb <> [] -> ~ In SP verb ->
  tail = [] \/ (exists rest, tail = SP :: rest) ->
  toUpperCase verb = lit "PING" ->
  processCommand toUpperCase s line now w
  = Some (tt, touched w s now, reply s "PONG").
Proof.
  intros Ht Hne Hv Htail Hup. unfold processCommand. cbv zeta.
  rewrite Ht, (truthy_app verb tail Hne). cbn [negb].
  rewrite bind_updateActivity.
  destruct (split_first_token tail Htail) as [ps Hps].
  rewrite (Hps verb Hv). cbn [nth]. rewrite Hup. reflexivity.
Qed.

(** X2.  A line whose first token upper-cases to none of [LOGIN], [MSG],
    [WHO], [DM], [PING] is answered [ERR unknown-command: ] followed by
    the upper-cased token, logged in or not; nothing else is written and
    only the activity stamp of the socket changes. *)
Theorem unknown_verb_is_echoed_in_upper_case
  (s : socket) (line verb tail : jsstring) (now : Z) (w : World) :
  trim line = verb ++ tail -> verb <> [] -> ~ In SP verb ->
  tail = [] \/ (exists rest, tail = SP :: rest) ->
  ~ In (toUpperCase verb)
       [lit "LOGIN"; lit "MSG"; lit "WHO"; lit "DM"; lit "PING"] ->
  processCommand toUpperCase s line now w
  = Some (tt, touched w s now,
          [Write s ((lit "ERR unknown-command: " ++ toUpperCase verb)
                    ++ [LF])]).
Proof.
  intros Ht Hne Hv Htail Hup. unfold processCommand. cbv zeta.
  rewrite Ht, (truthy_app verb tail Hne). cbn [negb].
  rewrite bind_updateActivity.
  destruct (split_first_token tail Htail) as [ps Hps].
  rewrite (Hps verb Hv). cbn [nth].
  assert (Hno : forall v, In v [lit "LOGIN"; lit "MSG"; lit "WHO";
                                lit "DM"; lit "PING"] ->
                          str_eqb (toUpperCase verb) v = false).
  { intros v Hin. apply str_eqb_neq. intros Heq. apply Hup.
    rewrite Heq. exact Hin. }
  rewrite !Hno by (simpl; tauto). reflexivity.
Qed.

(** X3.  A line made of whitespace only (the empty line, or the lone
    carriage return left by a CR LF line ending) is ignored: nothing is
    written and the state, activity stamp included, is unchanged. *)
Theorem whitespace_line_is_ignored
  (s : socket) (line : jsstring) (now : Z) (w : World) :
  Forall (fun c => isWhiteSpace c = true) line ->
  processCommand toUpperCase s line now w = Some (tt, w, []).
Proof.
  intros Hws. apply processCommand_empty.
  unfold trim, trimEnd. rewrite (trimStart_whitespace line Hws).
  reflexivity.
Qed.

(** X4.  The first token matters only through its upper-casing: two
    lines that differ only in first tokens with the same upper-casing are
    handled alike, while everything after the token is taken as it
    stands. *)
Theorem verbs_that_upper_case_alike_are_handled_alike
  (s : socket) (line line' verb verb' tail : jsstring) (now : Z)
  (w : World) :
  trim line = verb ++ tail -> trim line' = verb' ++ tail ->
  verb <> [] -> verb' <> [] -> ~ In SP verb -> ~ In SP verb' ->
  tail = [] \/ (exists rest, tail = SP :: rest) ->
  toUpperCase verb = toUpperCase verb' ->
  processCommand toUpperCase s line now w
  = processCommand toUpperCase s line' now w.
Proof.
  intros Ht Ht' Hne Hne' Hv Hv' Htail Hup. unfold processCommand. cbv zeta.
  rewrite Ht, Ht', (truthy_app verb tail Hne), (truthy_app verb' tail Hne').
  destruct (split_first_token tail Htail) as [ps Hps].
  rewrite (Hps verb Hv), (Hps verb' Hv').
  cbn [nth List.length]. unfold slice. cbn [skipn]. rewrite Hup.
  reflexivity.
Qed.

End FirstToken.

Lemma ping_is_answered_whoever_asks_witness :
  processCommand asciiUpper 2 (lit " ping  now ") 9 chat
  = Some (tt, touched chat 2 9, reply 2 "PONG").
Proof.
  refine (ping_is_answered_whoever_asks asciiUpper 2 (lit " ping  now ")
            (lit "ping") (lit "  now") 9 chat eq_refl _ _ _ eq_refl).
  - discriminate.
  - vm_compute. intuition discriminate.
  - right. exists (lit " now"). reflexivity.
Defined.

Lemma unknown_verb_is_echoed_in_upper_case_witness :
  processCommand asciiUpper 2 (lit "quit now") 9 chat
  = Some (tt, touched chat 2 9,
          [Write 2 (lit "ERR unknown-command: QUIT" ++ [LF])]).
Proof.
  refine (unknown_verb_is_echoed_in_upper_case asciiUpper 2 (lit "quit now")
            (lit "quit") (lit " now") 9 chat eq_refl _ _ _ _).
  - discriminate.
  - vm_compute. intuition discriminate.
  - right. exists (lit "now"). reflexivity.
  - vm_compute. intuition discriminate.
Defined.

Lemma whitespace_line_is_ignored_witness :
  processCommand asciiUpper 0 [13%N] 9 chat = Some (tt, chat, []).
Proof.
  apply (whitespace_line_is_ignored asciiUpper 0 [13%N] 9 chat).
  repeat constructor.
Defined.

Lemma verbs_that_upper_case_alike_are_handled_alike_witness :
  processCommand asciiUpper 1 (lit "Msg Hi") 9 chat
  = processCommand asciiUpper 1 (lit "mSG Hi") 9 chat.
Proof.
  refine (verbs_that_upper_case_alike_are_handled_alike asciiUpper 1
            (lit "Msg Hi") (lit "mSG Hi") (lit "Msg") (lit "mSG") (lit " Hi")
            9 chat eq_refl eq_refl _ _ _ _ _ eq_refl).
  - discriminate.
  - discriminate.
  - vm_compute. intuition discriminate.
  - vm_compute. intuition discriminate.
  - right. exists (lit "Hi"). reflexivity.
Defined.

(* ================================================================== *)
(** ** What a line changes *)

Lemma getData_loginWorld_same w s d u :
  getData (loginWorld w s d u) s
  = Some (mkData (Some u) (lastActivity d) (buffer d)).
Proof.
  unfold getData. simpl. apply JsMapFacts.get_set_same, nat_eqb_spec.
Qed.

Lemma getData_loginWorld_other w s d u t :
  t <> s -> getData (loginWorld w s d u) t = getData w t.
Proof.
  intros H. unfold getData. simpl.
  apply JsMapFacts.get_set_other; [apply nat_eqb_spec | exact H].
Qed.

Lemma getData_touched_other w s now t :
  t <> s -> getData (touched w s now) t = getData w t.
Proof.
  intros H. unfold touched. destruct (getData w s); [|reflexivity].
  apply getData_setData_other. exact H.
Qed.

Lemma nextSocket_touched w s now : nextSocket (touched w s now) = nextSocket w.
Proof. unfold touched. destruct (getData w s); reflexivity. Qed.

(** X5.  A non-empty line from a stored session changes the record of
    that session only: its activity stamp becomes the current time, even
    if the command is refused, its buffer is left alone, and its username
    is left alone or, if it had none, set by a successful [LOGIN], in
    which case that name goes last in the username index.  The records
    of all other sessions and the rest of the index stay as they are. *)
Theorem line_changes_only_its_own_session
  (toUpperCase : jsstring -> jsstring) (w : World) (s : socket)
  (d : SessionData) (line : jsstring) (now : Z) :
  Inv w -> getData w s = Some d -> trim line <> [] ->
  exists w' o d',
    processCommand toUpperCase s line now w = Some (tt, w', o)
    /\ getData w' s = Some d'
    /\ lastActivity d' = now
    /\ buffer d' = buffer d
    /\ (forall t, t <> s -> getData w' t = getData w t)
    /\ ((username d' = username d /\ clients w' = clients w)
        \/ (exists u, username d = None /\ username d' = Some u
                      /\ clients w' = clients w ++ [(u, s)])).
Proof.
  intros HI E Hne.
  destruct (processCommand_soundLine toUpperCase w s d line now HI E)
    as (w' & o & Erun & _).
  pose proof (getData_touched w s d now E) as E1.
  destruct (processCommand_shape toUpperCase s line now w tt w' o Erun)
    as [[Hempty _]|[_ [->|(d1 & u & Ed1 & L & V & G & ->)]]];
    [contradiction| |].
  - exists (touched w s now), o, (mkData (username d) now (buffer d)).
    split; [exact Erun|]. split; [exact E1|].
    split; [reflexivity|]. split; [reflexivity|].
    split; [intros t Ht; apply getData_touched_other, Ht|].
    left. split; [reflexivity | apply clients_touched].
  - rewrite E1 in Ed1. injection Ed1 as <-.
    assert (Hnone : username d = None).
    { apply (Inv_loggedIn_false w s d HI E). exact L. }
    eexists _, o, _. split; [exact Erun|].
    split; [apply getData_loginWorld_same|].
    split; [reflexivity|]. split; [reflexivity|].
    split.
    { intros t Ht. rewrite getData_loginWorld_other by exact Ht.
      apply getData_touched_other, Ht. }
    right. exists u. split; [exact Hnone|]. split; [reflexivity|].
    simpl. rewrite clients_touched.
    apply (JsMapFacts.set_new _ _ str_eqb (clients w) u s G).
Qed.

Lemma line_changes_only_its_own_session_witness :
  processCommand asciiUpper 2 (lit "WHO") 9 chat <> None.
Proof.
  destruct (line_changes_only_its_own_session asciiUpper chat 2
              (anonymous 0) (lit "WHO") 9 chat_Inv eq_refl)
    as (w' & o & d' & E & _).
  - discriminate.
  - rewrite E. discriminate.
Defined.

(* ================================================================== *)
(** ** A username is set once *)

Lemma keepsNames_refl w : keepsNames w w.
Proof. intros s d u d' E Hu E'. congruence. Qed.

Lemma keepsNames_setData w s d d' :
  getData w s = Some d -> username d' = username d ->
  keepsNames w (setData w s d').
Proof.
  intros E Hu t x u x' Ex Hx Ex'. destruct (Nat.eq_dec t s) as [->|Ht].
  - rewrite getData_setData_same in Ex'. congruence.
  - rewrite getData_setData_other in Ex' by exact Ht. congruence.
Qed.

Lemma keepsNames_touched w s now : keepsNames w (touched w s now).
Proof.
  unfold touched. destruct (getData w s) as [d|] eqn:E;
    [|apply keepsNames_refl].
  apply (keepsNames_setData w s d); [exact E | reflexivity].
Qed.

Lemma keepsNames_loginWorld w s d u :
  getData w s = Some d -> username d = None ->
  keepsNames w (loginWorld w s d u).
Proof.
  intros E Hn t x u' x' Ex Hx Ex'. destruct (Nat.eq_dec t s) as [->|Ht].
  - congruence.
  - rewrite getData_loginWorld_other in Ex' by exact Ht. congruence.
Qed.

Lemma keepsNames_removed w s : Inv w -> keepsNames w (removed w s).
Proof.
  intros HI t x u x' Ex Hx Ex'. destruct (Nat.eq_dec t s) as [->|Ht].
  - rewrite getData_removed_same in Ex' by apply (inv_sessions_nodup w HI).
    discriminate.
  - rewrite getData_removed_other in Ex' by exact Ht. congruence.
Qed.

Lemma keepsNames_connected w now : Inv w -> keepsNames w (connected w now).
Proof.
  intros HI t x u x' Ex Hx Ex'.
  assert (Ht : t <> nextSocket w).
  { intros ->. rewrite (Inv_fresh_absent w HI) in Ex. discriminate. }
  unfold getData in Ex'. simpl in Ex'.
  rewrite JsMapFacts.get_set_other in Ex'
    by (apply nat_eqb_spec || exact Ht).
  unfold getData in Ex. congruence.
Qed.

Lemma succeeds_refl w : succeeds w w.
Proof. constructor; [apply keepsNames_refl | lia | auto]. Qed.

Lemma succeeds_trans w1 w2 w3 :
  Inv w1 -> succeeds w1 w2 -> succeeds w2 w3 -> succeeds w1 w3.
Proof.
  intros HI [N12 X12 G12] [N23 X23 G23]. constructor.
  - intros s d u d' E Hu E'.
    destruct (getData w2 s) as [d2|] eqn:E2.
    + apply (N23 s d2 u d' E2); [|exact E'].
      apply (N12 s d u d2 E Hu E2).
    + pose proof (inv_fresh w1 HI s d E) as Hlt.
      rewrite (G23 s) in E'; [discriminate | lia | exact E2].
  - lia.
  - intros s Hlt E. apply G23; [lia|]. apply G12; assumption.
Qed.

Lemma succeeds_setData w s d d' :
  getData w s = Some d -> username d' = username d ->
  succeeds w (setData w s d').
Proof.
  intros E Hu. constructor.
  - apply (keepsNames_setData w s d d' E Hu).
  - simpl. lia.
  - intros t _ Et. rewrite getData_setData_other; [exact Et|].
    intros ->. congruence.
Qed.

Lemma succeeds_touched w s now : succeeds w (touched w s now).
Proof.
  unfold touched. destruct (getData w s) as [d|] eqn:E;
    [|apply succeeds_refl].
  apply (succeeds_setData w s d); [exact E | reflexivity].
Qed.

Lemma succeeds_loginWorld w s d u :
  getData w s = Some d -> username d = None ->
  succeeds w (loginWorld w s d u).
Proof.
  intros E Hn. constructor.
  - apply (keepsNames_loginWorld w s d u E Hn).
  - simpl. lia.
  - intros t _ Et. rewrite getData_loginWorld_other; [exact Et|].
    intros ->. congruence.
Qed.

Lemma succeeds_removed w s : Inv w -> succeeds w (removed w s).
Proof.
  intros HI. constructor.
  - apply keepsNames_removed, HI.
  - simpl. lia.
  - intros t _ Et. destruct (Nat.eq_dec t s) as [->|Ht].
    + apply getData_removed_same, (inv_sessions_nodup w HI).
    + rewrite getData_removed_other by exact Ht. exact Et.
Qed.

Lemma succeeds_connected w now : Inv w -> succeeds w (connected w now).
Proof.
  intros HI. constructor.
  - apply keepsNames_connected, HI.
  - simpl. lia.
  - intros t Hlt Et. unfold getData. simpl.
    rewrite JsMapFacts.get_set_other; [exact Et | apply nat_eqb_spec | lia].
Qed.

Section Lifetime.

Variable toUpperCase : jsstring -> jsstring.

Lemma processCommand_succeeds w s line now a w' o :
  Inv w -> processCommand toUpperCase s line now w = Some (a, w', o) ->
  succeeds w w'.
Proof.
  intros HI Hrun.
  destruct (processCommand_shape toUpperCase s line now w a w' o Hrun)
    as [[_ ->]|[_ [->|(d1 & u & Ed1 & L & V & G & ->)]]].
  - apply succeeds_refl.
  - apply succeeds_touched.
  - apply (succeeds_trans w (touched w s now)); [exact HI| |].
    + apply succeeds_touched.
    + apply (succeeds_loginWorld _ s d1 u Ed1).
      apply (Inv_loggedIn_false (touched w s now) s d1);
        [apply Inv_touched, HI | exact Ed1 | exact L].
Qed.

Lemma drainLines_succeeds fuel s now :
  forall w w' o,
    Inv w -> drainLines toUpperCase fuel s now w = Some (tt, w', o) ->
    succeeds w w'.
Proof.
  induction fuel as [|fuel IH]; intros w w' o HI Hrun; [discriminate|].
  rewrite drainLines_S in Hrun.
  destruct (getData w s) as [d|] eqn:E; [|discriminate].
  destruct (indexOf LF (buffer d)) as [i|].
  2:{ injection Hrun as <- _. apply succeeds_refl. }
  set (d1 := mkData (username d) (lastActivity d) (skipn (S i) (buffer d)))
    in Hrun.
  assert (HI1 : Inv (setData w s d1))
    by (apply (Inv_setData w s d d1 HI E); reflexivity).
  destruct (processCommand toUpperCase s (firstn i (buffer d)) now
              (setData w s d1)) as [[[[] w2] o2]|] eqn:E2; [|discriminate].
  destruct (processCommand_soundLine toUpperCase (setData w s d1) s d1
              (firstn i (buffer d)) now HI1 (getData_setData_same w s d1))
    as (w2' & o2' & E2' & I2 & _).
  rewrite E2 in E2'. injection E2' as <- <-.
  destruct (drainLines toUpperCase fuel s now w2) as [[[[] w3] o3]|] eqn:E3;
    [|discriminate].
  injection Hrun as <- _.
  apply (succeeds_trans w (setData w s d1)); [exact HI| |].
  - apply (succeeds_setData w s d d1 E). reflexivity.
  - apply (succeeds_trans _ w2); [exact HI1| |].
    + apply (processCommand_succeeds _ s _ now tt w2 o2 HI1 E2).
    + apply (IH w2 w3 o3 I2 E3).
Qed.

Lemma onData_succeeds w s chunk now w' o :
  Inv w -> onData toUpperCase s chunk now w = Some (tt, w', o) ->
  succeeds w w'.
Proof.
  intros HI Hrun. destruct (getData w s) as [d|] eqn:E.
  2:{ unfold onData, bind, getW in Hrun. rewrite E in Hrun.
      injection Hrun as <- _. apply succeeds_refl. }
  rewrite (onData_stored toUpperCase s chunk now w d E) in Hrun.
  set (d1 := mkData (username d) (lastActivity d)
               (buffer d ++ toString_utf8 chunk)) in Hrun.
  assert (HI1 : Inv (setData w s d1))
    by (apply (Inv_setData w s d d1 HI E); reflexivity).
  destruct (drainLines_sound toUpperCase
              (S (List.length (buffer d ++ toString_utf8 chunk))) s now
              (setData w s d1) d1 HI1 (getData_setData_same w s d1)
              (Nat.lt_succ_diag_r _))
    as (w2 & o2 & d2 & E2 & I2 & _ & Ed2 & _).
  rewrite E2, Ed2 in Hrun.
  pose proof (drainLines_succeeds _ s now _ w2 o2 HI1 E2) as H12.
  assert (H02 : succeeds w w2).
  { apply (succeeds_trans w (setData w s d1)); [exact HI| |exact H12].
    apply (succeeds_setData w s d d1 E). reflexivity. }
  destruct (4096 <? List.length (buffer d2)).
  - injection Hrun as <- _.
    apply (succeeds_trans w w2); [exact HI | exact H02 |].
    apply (succeeds_setData w2 s d2 _ Ed2). reflexivity.
  - injection Hrun as <- _. exact H02.
Qed.

Lemma handle_succeeds w e w' o :
  Inv w -> handle toUpperCase e w = Some (tt, w', o) -> succeeds w w'.
Proof.
  intros HI. destruct e as [now|s chunk now|s|s|s now| |code]; simpl.
  7:{ destruct (onServerError_run code w) as (o1 & E & _). rewrite E.
      intros H; injection H as <- _. apply succeeds_refl. }
  - rewrite onConnect_run. intros H; injection H as <- _.
    apply succeeds_connected, HI.
  - apply onData_succeeds, HI.
  - unfold onEnd. rewrite removeUser_run. intros H; injection H as <- _.
    apply succeeds_removed, HI.
  - unfold onError. rewrite removeUser_run. intros H; injection H as <- _.
    apply succeeds_removed, HI.
  - unfold onInterval, bind, getW.
    destruct (getData w s) as [d|];
      [|intros H; injection H as <- _; apply succeeds_refl].
    destruct (IDLE_TIMEOUT_MS <? now - lastActivity d)%Z;
      [|intros H; injection H as <- _; apply succeeds_refl].
    unfold sendToSocket, emit. rewrite removeUser_run.
    intros H; injection H as <- _. apply succeeds_removed, HI.
  - rewrite onSigint_run. intros H; injection H as <- _.
    apply succeeds_refl.
Qed.

Lemma run_succeeds es :
  forall w w' o,
    Inv w -> run toUpperCase es w = Some (tt, w', o) -> succeeds w w'.
Proof.
  induction es as [|e es IH]; intros w w' o HI Hrun.
  - injection Hrun as <- _. apply succeeds_refl.
  - unfold run in Hrun; simpl in Hrun. apply bind_inv in Hrun.
    destruct Hrun as ([] & w1 & o1 & o2 & H1 & H2 & _).
    destruct (handle_sound toUpperCase w e HI) as (w1' & o1' & E1 & I1 & _).
    rewrite H1 in E1. injection E1 as <- <-.
    apply (succeeds_trans w w1); [exact HI| |].
    + apply (handle_succeeds w e w1 o1 HI H1).
    + apply (IH w1 w' o2 I1 H2).
Qed.

End Lifetime.

(** X6.  A username is set once: through any sequence of events, a
    session that has a username and is still stored has the same
    username, and the index still maps that name to its socket.  A socket
    that was closed and removed is never stored again. *)
Theorem username_is_kept_for_the_life_of_a_session
  (toUpperCase : jsstring -> jsstring) (es : list event) (w w' : World)
  (o : list effect) :
  Inv w -> run toUpperCase es w = Some (tt, w', o) ->
  (forall s d u d',
     getData w s = Some d -> username d = Some u ->
     getData w' s = Some d' ->
     username d' = Some u /\ JsMap.get str_eqb (clients w') u = Some s)
  /\ (forall s, s < nextSocket w -> getData w s = None ->
                getData w' s = None).
Proof.
  intros HI Hrun.
  destruct (run_succeeds toUpperCase es w w' o HI Hrun) as [Hn _ Hg].
  destruct (run_sound toUpperCase es w HI) as (w1 & o1 & E1 & I1 & _).
  rewrite Hrun in E1. injection E1 as <- <-.
  split; [|exact Hg].
  intros s d u d' E Hu E'.
  pose proof (Hn s d u d' E Hu E') as Hu'. split; [exact Hu'|].
  apply (inv_index w' I1). eauto.
Qed.

Lemma username_is_kept_for_the_life_of_a_session_witness :
  username (mkData (Some (lit "alice")) 5 []) = Some (lit "alice")
  /\ JsMap.get str_eqb [(lit "alice", 0)] (lit "alice") = Some 0.
Proof.
  exact (proj1 (username_is_kept_for_the_life_of_a_session asciiUpper
                  [Data 0 (lineOf "LOGIN carol") 5; End 1] chat
                  (mkWorld [(lit "alice", 0)]
                     [(0, mkData (Some (lit "alice")) 5 []);
                      (2, anonymous 0)] 3)
                  [Write 0 (lit "ERR already-logged-in" ++ [LF]);
                   Write 0 (lit "INFO bob disconnected" ++ [LF])]
                  chat_Inv eq_refl)
           0 (named "alice" 1) (lit "alice")
           (mkData (Some (lit "alice")) 5 []) eq_refl eq_refl eq_refl).
Defined.

(* ================================================================== *)
(** ** The end of a session *)

Lemma removed_releases_name w s d u :
  Inv w -> getData w s = Some d -> username d = Some u ->
  JsMap.get str_eqb (clients (removed w s)) u = None.
Proof.
  intros HI E Hu. simpl. unfold releasedClients. rewrite E.
  assert (L : loggedIn d = true)
    by (apply (Inv_loggedIn w s d HI E); eauto).
  rewrite L. unfold usernameText. rewrite Hu.
  apply JsMapFacts.get_delete_same;
    [apply str_eqb_eq | apply (inv_clients_nodup w HI)].
Qed.

Lemma removed_anonymous_clients w s d :
  getData w s = Some d -> username d = None ->
  clients (removed w s) = clients w.
Proof.
  intros E Hn. simpl. unfold releasedClients. rewrite E.
  unfold loggedIn. rewrite Hn. reflexivity.
Qed.

Lemma remaining_recipients w s t :
  Inv w ->
  (In t (recipients None (clients (removed w s))) <->
   t <> s /\ exists d u, getData w t = Some d /\ username d = Some u).
Proof.
  intros HI.
  rewrite (recipients_logged_in (removed w s) t (Inv_removed w s HI)).
  split.
  - intros (d & u & E & Hu). destruct (Nat.eq_dec t s) as [->|Ht].
    + rewrite getData_removed_same in E
        by apply (inv_sessions_nodup w HI).
      discriminate.
    + rewrite getData_removed_other in E by exact Ht. eauto.
  - intros [Ht (d & u & E & Hu)]. exists d, u.
    rewrite getData_removed_other by exact Ht. auto.
Qed.

(** X7.  The two ways a connection ends leave the same state, with the
    record of the socket removed and its username, if it had one, free
    again.  An error writes nothing to anyone.  A clean end of a
    logged-in session [u] writes [INFO u disconnected] to every other
    logged-in session and not to the socket that ended; a clean end of a
    session that had not logged in writes nothing. *)
Theorem clean_end_announces_error_does_not (w : World) (s : socket)
  (d : SessionData) :
  Inv w -> getData w s = Some d ->
  onError s w = Some (tt, removed w s, [])
  /\ getData (removed w s) s = None
  /\ (username d = None -> onEnd s w = Some (tt, removed w s, []))
  /\ (forall u, username d = Some u ->
        onEnd s w
        = Some (tt, removed w s,
                deliver (lit "INFO " ++ u ++ lit " disconnected")
                  (recipients None (clients (removed w s))))
        /\ JsMap.get str_eqb (clients (removed w s)) u = None
        /\ (forall t,
              In t (recipients None (clients (removed w s))) <->
              t <> s
              /\ exists dt ut, getData w t = Some dt
                               /\ username dt = Some ut)).
Proof.
  intros HI E. split; [|split; [|split]].
  - unfold onError. rewrite removeUser_run. unfold departure. rewrite E.
    rewrite andb_false_r. reflexivity.
  - apply getData_removed_same, (inv_sessions_nodup w HI).
  - intros Hn. unfold onEnd. rewrite removeUser_run. unfold departure.
    rewrite E. unfold loggedIn. rewrite Hn. reflexivity.
  - intros u Hu.
    assert (L : loggedIn d = true)
      by (apply (Inv_loggedIn w s d HI E); eauto).
    split; [|split].
    + unfold onEnd. rewrite removeUser_run. unfold departure.
      rewrite E, L. unfold usernameText. rewrite Hu. reflexivity.
    + apply (removed_releases_name w s d u HI E Hu).
    + intros t. apply (remaining_recipients w s t HI).
Qed.

Lemma clean_end_announces_error_does_not_witness :
  onError 1 chat = Some (tt, removed chat 1, [])
  /\ onEnd 1 chat
     = Some (tt, removed chat 1,
             [Write 0 (lit "INFO bob disconnected" ++ [LF])]).
Proof.
  pose proof (clean_end_announces_error_does_not chat 1 (named "bob" 2)
                chat_Inv eq_refl) as H.
  split; [exact (proj1 H)|].
  exact (proj1 (proj2 (proj2 (proj2 H)) (lit "bob") eq_refl)).
Defined.

(** X8.  The idle timer of a stored session does nothing while the time
    since its last activity is at most 60000 ms, the bound included.
    Beyond that it writes [ERR idle-timeout] to the socket, removes the
    session as a clean end does, announcing the departure of a logged-in
    session to the others, and then destroys the socket. *)
Theorem idle_session_is_evicted_after_the_threshold (w : World)
  (s : socket) (d : SessionData) (now : Z) :
  Inv w -> getData w s = Some d ->
  ((now - lastActivity d <= 60000)%Z ->
     onInterval s now w = Some (tt, w, []))
  /\ ((60000 < now - lastActivity d)%Z ->
        onInterval s now w
        = Some (tt, removed w s,
                reply s "ERR idle-timeout" ++ departure w s true
                ++ [Destroy s])
        /\ onEnd s w = Some (tt, removed w s, departure w s true)
        /\ getData (removed w s) s = None
        /\ (forall t m, In (Write t m) (departure w s true) ->
              t <> s
              /\ exists dt ut, getData w t = Some dt
                               /\ username dt = Some ut)).
Proof.
  intros HI E. split.
  - intros Hle. unfold onInterval, bind, getW. rewrite E.
    replace (IDLE_TIMEOUT_MS <? now - lastActivity d)%Z with false;
      [reflexivity|].
    symmetry. apply Z.ltb_ge. unfold IDLE_TIMEOUT_MS. lia.
  - intros Hlt. split; [|split; [|split]].
    + unfold onInterval, bind, getW, sendToSocket, emit. rewrite E.
      replace (IDLE_TIMEOUT_MS <? now - lastActivity d)%Z with true
        by (symmetry; apply Z.ltb_lt; unfold IDLE_TIMEOUT_MS; lia).
      rewrite removeUser_run. reflexivity.
    + unfold onEnd. apply removeUser_run.
    + apply getData_removed_same, (inv_sessions_nodup w HI).
    + intros t m Hin. unfold departure in Hin. rewrite E in Hin.
      destruct (loggedIn d && true); [|contradiction].
      apply In_deliver in Hin. destruct Hin as [t' [Ht Heq]].
      injection Heq as -> _.
      change (releasedClients w s) with (clients (removed w s)) in Ht.
      apply (remaining_recipients w s t' HI). exact Ht.
Qed.

Lemma idle_session_is_evicted_after_the_threshold_witness :
  onInterval 1 60002 chat = Some (tt, chat, [])
  /\ onInterval 1 60003 chat
     = Some (tt, removed chat 1,
             [Write 1 (lit "ERR idle-timeout" ++ [LF]);
              Write 0 (lit "INFO bob disconnected" ++ [LF]);
              Destroy 1]).
Proof.
  pose proof (idle_session_is_evicted_after_the_threshold chat 1
                (named "bob" 2)) as H.
  split.
  - refine (proj1 (H 60002%Z chat_Inv eq_refl) _). vm_compute. discriminate.
  - refine (proj1 (proj2 (H 60003%Z chat_Inv eq_refl) _)). reflexivity.
Defined.

(** X9.  A username released by the end of its session can be taken
    again: after the session holding [u] is removed, [LOGIN u] from
    another stored session that has no username succeeds, is answered
    [OK], and is announced to the sessions still logged in. *)
Theorem released_username_can_be_taken_again (w : World) (s t : socket)
  (d dt : SessionData) (u : jsstring) :
  Inv w -> getData w s = Some d -> username d = Some u ->
  t <> s -> getData w t = Some dt -> username dt = None ->
  handleLogin t u w = Some (tt, w, reply t "ERR username-taken")
  /\ handleLogin t u (removed w s)
     = Some (tt, loginWorld (removed w s) t dt u,
             reply t "OK"
             ++ deliver (lit "INFO " ++ u ++ lit " joined")
                  (recipients (Some t) (clients (removed w s))))
  /\ JsMap.get str_eqb (clients (loginWorld (removed w s) t dt u)) u
     = Some t.
Proof.
  intros HI E Hu Hts Et Hn.
  assert (Lt : loggedIn dt = false)
    by (unfold loggedIn; rewrite Hn; reflexivity).
  assert (V : isValidUsername u = true)
    by (apply (inv_valid w HI s d u E Hu)).
  split; [|split].
  - apply (handleLogin_taken w t dt u Et Lt V).
    apply JsMapFacts.has_true. exists s. apply (inv_index w HI). eauto.
  - assert (Et' : getData (removed w s) t = Some dt)
      by (rewrite getData_removed_other by exact Hts; exact Et).
    pose proof (removed_releases_name w s d u HI E Hu) as G.
    rewrite (handleLogin_success (removed w s) t dt u Et' Lt V)
      by (apply JsMapFacts.has_false; exact G).
    rewrite (recipients_after_login (removed w s) t dt u G). reflexivity.
  - simpl. apply JsMapFacts.get_set_same, str_eqb_eq.
Qed.

Lemma released_username_can_be_taken_again_witness :
  handleLogin 2 (lit "bob") chat
  = Some (tt, chat, reply 2 "ERR username-taken")
  /\ handleLogin 2 (lit "bob") (removed chat 1)
     = Some (tt, loginWorld (removed chat 1) 2 (anonymous 0) (lit "bob"),
             [Write 2 OKLINE; Write 0 (lit "INFO bob joined" ++ [LF])]).
Proof.
  pose proof (released_username_can_be_taken_again chat 1 2 (named "bob" 2)
                (anonymous 0) (lit "bob") chat_Inv eq_refl eq_refl) as H.
  assert (Hne : 2 <> 1) by discriminate.
  specialize (H Hne eq_refl eq_refl).
  split; [exact (proj1 H) | exact (proj1 (proj2 H))].
Defined.

(* ================================================================== *)
(** ** Framing of the input *)

Section Framing.

Variable toUpperCase : jsstring -> jsstring.

(** X10.  Input without a newline is only buffered as long as the buffer
    stays within 4096 code units, that bound included: nothing is
    written, and the record changes in its buffer only, so the idle
    clock is not reset by a partial line. *)
Theorem partial_line_is_buffered (w : World) (s : socket)
  (d : SessionData) (chunk : list byte) (now : Z) :
  getData w s = Some d ->
  ~ In LF (buffer d ++ toString_utf8 chunk) ->
  List.length (buffer d ++ toString_utf8 chunk) <= 4096 ->
  onData toUpperCase s chunk now w
  = Some (tt,
          setData w s
            (mkData (username d) (lastActivity d)
               (buffer d ++ toString_utf8 chunk)),
          []).
Proof.
  intros E Hn Hlen. rewrite (onData_stored toUpperCase s chunk now w d E).
  rewrite drainLines_S, getData_setData_same. cbn [buffer].
  rewrite (proj2 (indexOf_None LF _) Hn), getData_setData_same.
  cbn [buffer].
  replace (4096 <? List.length (buffer d ++ toString_utf8 chunk)) with false
    by (symmetry; apply Nat.ltb_ge; exact Hlen).
  reflexivity.
Qed.

(** X11.  A chunk that brings the newline of the line being buffered
    makes the server handle that line, buffered part and new part
    together, exactly as [processCommand] handles it on the state with
    the buffer emptied.  This holds whatever the length of the line: the
    4096 ceiling applies only to what is left after the complete lines
    are taken out. *)
Theorem completed_line_is_handled_whatever_its_length (w : World)
  (s : socket) (d : SessionData) (chunk : list byte) (line : jsstring)
  (now : Z) :
  Inv w -> getData w s = Some d -> ~ In LF (buffer d) ->
  toString_utf8 chunk = line ++ [LF] -> ~ In LF line ->
  onData toUpperCase s chunk now w
  = processCommand toUpperCase s (buffer d ++ line) now
      (setData w s (mkData (username d) (lastActivity d) []))
  /\ exists w' o,
       onData toUpperCase s chunk now w = Some (tt, w', o).
Proof.
  intros HI E Hb Hc Hl.
  set (d0 := mkData (username d) (lastActivity d) []).
  assert (HI0 : Inv (setData w s d0))
    by (apply (Inv_setData w s d d0 HI E); reflexivity).
  destruct (processCommand_soundLine toUpperCase (setData w s d0) s d0
              (buffer d ++ line) now HI0 (getData_setData_same w s d0))
    as (w2 & o2 & E2 & I2 & B2 & _).
  assert (Hn : ~ In LF (buffer d ++ line)).
  { intros H. apply in_app_or in H. tauto. }
  assert (Heq : onData toUpperCase s chunk now w
                = processCommand toUpperCase s (buffer d ++ line) now
                    (setData w s d0)).
  { rewrite (onData_stored toUpperCase s chunk now w d E), Hc, app_assoc.
    rewrite drainLines_S, getData_setData_same. cbn [buffer].
    rewrite (indexOf_app LF (buffer d ++ line) [] Hn), firstn_length_app,
      skipn_length_app, setData_setData.
    cbn [buffer username lastActivity]. fold d0. rewrite E2.
    destruct (B2 s d0 (getData_setData_same w s d0)) as [d2 [Ed2 Hb2]].
    rewrite length_app, Nat.add_comm. cbn [List.length Nat.add].
    rewrite drainLines_S, Ed2, Hb2. cbn [buffer d0 indexOf].
    rewrite Ed2, Hb2, app_nil_r. reflexivity. }
  split; [exact Heq|]. exists w2, o2. rewrite Heq. exact E2.
Qed.

(** X12.  An event on a socket that has no record, as after its removal,
    does nothing: data, the idle timer, the end and an error of the
    socket leave the state as it is and write nothing. *)
Theorem events_on_a_removed_socket_do_nothing (w : World) (s : socket)
  (chunk : list byte) (now : Z) :
  getData w s = None ->
  onData toUpperCase s chunk now w = Some (tt, w, [])
  /\ onInterval s now w = Some (tt, w, [])
  /\ onEnd s w = Some (tt, w, [])
  /\ onError s w = Some (tt, w, []).
Proof.
  intros E.
  assert (Hr : forall notify, removeUser s notify w = Some (tt, w, [])).
  { intros notify. rewrite removeUser_run, (removed_absent w s E).
    unfold departure. rewrite E. reflexivity. }
  split; [|split; [|split]].
  - unfold onData, bind, getW. rewrite E. reflexivity.
  - unfold onInterval, bind, getW. rewrite E. reflexivity.
  - apply Hr.
  - apply Hr.
Qed.

(** X13.  The name of a [LOGIN] is the second token of the line and
    nothing else: what follows it is dropped, and no name is looked for
    beyond a second space, so that the handler gets the empty name when
    two spaces follow the verb. *)
Theorem login_name_is_the_second_token (w : World) (s : socket)
  (line verb name tail : jsstring) (now : Z) :
  trim line = verb ++ SP :: name ++ tail ->
  ~ In SP verb -> ~ In SP name ->
  tail = [] \/ (exists rest, tail = SP :: rest) ->
  toUpperCase verb = lit "LOGIN" ->
  processCommand toUpperCase s line now w
  = handleLogin s name (touched w s now).
Proof.
  intros Ht Hv Hn Htail Hup.
  rewrite (processCommand_login toUpperCase s line now w verb (name ++ tail)
             Ht Hv Hup).
  destruct (split_first_token tail Htail) as [ps Hps].
  rewrite (Hps name Hn). reflexivity.
Qed.

End Framing.

Lemma partial_line_is_buffered_witness :
  onData asciiUpper 0 (repeat x61 4096) 7 lobby
  = Some (tt, setData lobby 0 (mkData None 0 (repeat 97%N 4096)), []).
Proof.
  refine (eq_trans
            (partial_line_is_buffered asciiUpper lobby 0 (anonymous 0)
               (repeat x61 4096) 7 eq_refl _ _) _).
  - apply indexOf_None. vm_compute. reflexivity.
  - apply Nat.leb_le. vm_compute. reflexivity.
  - vm_compute. reflexivity.
Defined.

Lemma completed_line_is_handled_whatever_its_length_witness :
  onData asciiUpper 0 (lineOf "NG") 8
    (setData lobby 0 (mkData None 0 (lit "PI")))
  = Some (tt, touched lobby 0 8, reply 0 "PONG").
Proof.
  refine (eq_trans
            (proj1 (completed_line_is_handled_whatever_its_length asciiUpper
                      (setData lobby 0 (mkData None 0 (lit "PI"))) 0
                      (mkData None 0 (lit "PI")) (lineOf "NG") (lit "NG") 8
                      _ eq_refl _ eq_refl _)) _).
  - apply (Inv_setData lobby 0 (anonymous 0)); [exact lobby_Inv| |];
      reflexivity.
  - vm_compute. intuition discriminate.
  - vm_compute. intuition discriminate.
  - reflexivity.
Defined.

Lemma events_on_a_removed_socket_do_nothing_witness :
  onData asciiUpper 7 (lineOf "PING") 8 chat = Some (tt, chat, []).
Proof.
  exact (proj1 (events_on_a_removed_socket_do_nothing asciiUpper chat 7
                  (lineOf "PING") 8 eq_refl)).
Defined.

Lemma login_name_is_the_second_token_witness :
  processCommand asciiUpper 2 (lit "login carol the great") 9 chat
  = handleLogin 2 (lit "carol") (touched chat 2 9).
Proof.
  refine (login_name_is_the_second_token asciiUpper chat 2
            (lit "login carol the great") (lit "login") (lit "carol")
            (lit " the great") 9 eq_refl _ _ _ eq_refl).
  - vm_compute. intuition discriminate.
  - vm_compute. intuition discriminate.
  - right. exists (lit "the great"). reflexivity.
Defined.

(* ================================================================== *)
(** ** The lines of a chunk *)

Lemma getData_withBuffer w s d b :
  getData w s = Some d ->
  getData (withBuffer w s b) s
  = Some (mkData (username d) (lastActivity d) b).
Proof.
  intros E. unfold withBuffer. rewrite E. apply getData_setData_same.
Qed.

Lemma withBuffer_stored w s d b :
  getData w s = Some d ->
  withBuffer w s b = setData w s (mkData (username d) (lastActivity d) b).
Proof. intros E. unfold withBuffer. rewrite E. reflexivity. Qed.

Lemma withBuffer_withBuffer w s b1 b2 :
  withBuffer (withBuffer w s b1) s b2 = withBuffer w s b2.
Proof.
  destruct (getData w s) as [d|] eqn:E.
  - rewrite (withBuffer_stored _ s _ b2 (getData_withBuffer w s d b1 E)).
    rewrite (withBuffer_stored w s d b1 E), (withBuffer_stored w s d b2 E).
    apply setData_setData.
  - unfold withBuffer. rewrite E, E. reflexivity.
Qed.

Lemma withBuffer_same w s d :
  getData w s = Some d -> withBuffer w s (buffer d) = w.
Proof.
  intros E. rewrite (withBuffer_stored w s d _ E).
  replace (mkData (username d) (lastActivity d) (buffer d)) with d
    by (destruct d; reflexivity).
  apply setData_same, E.
Qed.

Lemma clients_withBuffer w s b : clients (withBuffer w s b) = clients w.
Proof. unfold withBuffer. destruct (getData w s); reflexivity. Qed.

Lemma Inv_withBuffer w s b : Inv w -> Inv (withBuffer w s b).
Proof.
  intros HI. unfold withBuffer. destruct (getData w s) as [d|] eqn:E;
    [|exact HI].
  apply (Inv_setData w s d _ HI E). reflexivity.
Qed.

Lemma touched_withBuffer w s b now :
  touched (withBuffer w s b) s now = withBuffer (touched w s now) s b.
Proof.
  destruct (getData w s) as [d|] eqn:E.
  - unfold touched at 1. rewrite (getData_withBuffer w s d b E).
    rewrite (withBuffer_stored w s d b E), setData_setData.
    rewrite (withBuffer_stored _ s _ b (getData_touched w s d now E)).
    unfold touched. rewrite E, setData_setData. reflexivity.
  - unfold touched, withBuffer. rewrite E, E. reflexivity.
Qed.

Lemma loginWorld_withBuffer w s d u b :
  getData w s = Some d ->
  loginWorld (withBuffer w s b) s (mkData (username d) (lastActivity d) b) u
  = withBuffer (loginWorld w s d u) s b.
Proof.
  intros E.
  rewrite (withBuffer_stored _ s _ b (getData_loginWorld_same w s d u)).
  rewrite (withBuffer_stored w s d b E).
  unfold loginWorld, setData. simpl.
  rewrite !(JsMapFacts.set_set _ _ Nat.eqb nat_eqb_spec). reflexivity.
Qed.

(** *** The handlers do not look at the buffer *)

Lemma handleLogin_buffer w s d u b :
  getData w s = Some d ->
  handleLogin s u (withBuffer w s b) = liftBuffer s b (handleLogin s u w).
Proof.
  intros E. pose proof (getData_withBuffer w s d b E) as Eb.
  set (db := mkData (username d) (lastActivity d) b) in *.
  assert (Lb : loggedIn db = loggedIn d) by reflexivity.
  destruct (loggedIn d) eqn:L.
  { rewrite (handleLogin_already _ s db u Eb Lb),
      (handleLogin_already w s d u E L). reflexivity. }
  destruct (isValidUsername u) eqn:V.
  2:{ rewrite (handleLogin_invalid _ s db u Eb Lb V),
        (handleLogin_invalid w s d u E L V). reflexivity. }
  destruct (JsMap.has str_eqb (clients w) u) eqn:T.
  { rewrite (handleLogin_taken _ s db u Eb Lb V)
      by (rewrite clients_withBuffer; exact T).
    rewrite (handleLogin_taken w s d u E L V T). reflexivity. }
  rewrite (handleLogin_success _ s db u Eb Lb V)
    by (rewrite clients_withBuffer; exact T).
  rewrite (handleLogin_success w s d u E L V T).
  unfold liftBuffer, db. rewrite (loginWorld_withBuffer w s d u b E).
  rewrite clients_withBuffer. reflexivity.
Qed.

Lemma handleMessage_buffer w s d t b :
  getData w s = Some d ->
  handleMessage s t (withBuffer w s b)
  = liftBuffer s b (handleMessage s t w).
Proof.
  intros E. pose proof (getData_withBuffer w s d b E) as Eb.
  set (db := mkData (username d) (lastActivity d) b) in *.
  assert (Lb : loggedIn db = loggedIn d) by reflexivity.
  destruct (loggedIn d) eqn:L.
  2:{ rewrite (handleMessage_anonymous _ s db t Eb Lb),
        (handleMessage_anonymous w s d t E L). reflexivity. }
  destruct (blank t) eqn:B.
  { rewrite (handleMessage_blank _ s db t Eb Lb B),
      (handleMessage_blank w s d t E L B). reflexivity. }
  rewrite (handleMessage_fanout _ s db t Eb Lb B),
    (handleMessage_fanout w s d t E L B), clients_withBuffer. reflexivity.
Qed.

Lemma handleWho_buffer w s d b :
  getData w s = Some d ->
  handleWho s (withBuffer w s b) = liftBuffer s b (handleWho s w).
Proof.
  intros E. pose proof (getData_withBuffer w s d b E) as Eb.
  set (db := mkData (username d) (lastActivity d) b) in *.
  assert (Lb : loggedIn db = loggedIn d) by reflexivity.
  destruct (loggedIn d) eqn:L.
  2:{ rewrite (handleWho_anonymous _ s db Eb Lb),
        (handleWho_anonymous w s d E L). reflexivity. }
  destruct (clients w) as [|e r] eqn:C.
  { rewrite (handleWho_empty _ s db Eb Lb)
      by (rewrite clients_withBuffer; exact C).
    rewrite (handleWho_empty w s d E L C). reflexivity. }
  rewrite (handleWho_list _ s db Eb Lb)
    by (rewrite clients_withBuffer, C; discriminate).
  rewrite (handleWho_list w s d E L) by (rewrite C; discriminate).
  rewrite clients_withBuffer. reflexivity.
Qed.

Lemma handleDirectMessage_buffer w s d target text b :
  getData w s = Some d ->
  handleDirectMessage s target text (withBuffer w s b)
  = liftBuffer s b (handleDirectMessage s target text w).
Proof.
  intros E. pose proof (getData_withBuffer w s d b E) as Eb.
  set (db := mkData (username d) (lastActivity d) b) in *.
  assert (Lb : loggedIn db = loggedIn d) by reflexivity.
  destruct (loggedIn d) eqn:L.
  2:{ rewrite (handleDirectMessage_anonymous _ s db target text Eb Lb),
        (handleDirectMessage_anonymous w s d target text E L).
      reflexivity. }
  destruct (negb (truthy target) || negb (truthy text)) eqn:F.
  { rewrite (handleDirectMessage_format _ s db target text Eb Lb F),
      (handleDirectMessage_format w s d target text E L F). reflexivity. }
  apply orb_false_iff in F. destruct F as [T1 T2].
  apply negb_false_iff in T1. apply negb_false_iff in T2.
  destruct (list_eq_dec N.eq_dec target (usernameText d)) as [Heq|Hne].
  { rewrite (handleDirectMessage_self _ s db target text Eb Lb T1 T2 Heq),
      (handleDirectMessage_self w s d target text E L T1 T2 Heq).
    reflexivity. }
  destruct (JsMap.get str_eqb (clients w) target) as [r|] eqn:G.
  - rewrite (handleDirectMessage_sent _ s db target text r Eb Lb T1 T2 Hne)
      by (rewrite clients_withBuffer; exact G).
    rewrite (handleDirectMessage_sent w s d target text r E L T1 T2 Hne G).
    reflexivity.
  - rewrite (handleDirectMessage_absent _ s db target text Eb Lb T1 T2 Hne)
      by (rewrite clients_withBuffer; exact G).
    rewrite (handleDirectMessage_absent w s d target text E L T1 T2 Hne G).
    reflexivity.
Qed.

Section Lines.

Variable toUpperCase : jsstring -> jsstring.

Lemma processCommand_buffer w s d line now b :
  getData w s = Some d ->
  processCommand toUpperCase s line now (withBuffer w s b)
  = liftBuffer s b (processCommand toUpperCase s line now w).
Proof.
  intros E. unfold processCommand. cbv zeta.
  destruct (truthy (trim line)); cbn [negb]; [|reflexivity].
  rewrite !bind_updateActivity, touched_withBuffer.
  pose proof (getData_touched w s d now E) as E1.
  repeat match goal with
  | |- (if ?c then _ else _) _ = _ => destruct c
  end;
    first
      [ reflexivity
      | apply (handleLogin_buffer _ s _ _ b E1)
      | apply (handleMessage_buffer _ s _ _ b E1)
      | apply (handleWho_buffer _ s _ b E1)
      | apply (handleDirectMessage_buffer _ s _ _ _ b E1) ].
Qed.

Lemma linesText_cons l ls tail :
  linesText (l :: ls) tail = l ++ LF :: linesText ls tail.
Proof.
  unfold linesText. cbn [flat_map]. rewrite <- !app_assoc. reflexivity.
Qed.

Lemma drainLines_lines s now tail :
  ~ In LF tail ->
  forall lines w d fuel,
    Inv w -> getData w s = Some d -> buffer d = linesText lines tail ->
    Forall (fun l => ~ In LF l) lines ->
    List.length (buffer d) < fuel ->
    exists w' o d',
      processLines toUpperCase s now lines (withBuffer w s [])
      = Some (tt, w', o)
      /\ getData w' s = Some d' /\ buffer d' = []
      /\ drainLines toUpperCase fuel s now w
         = Some (tt, withBuffer w' s tail, o).
Proof.
  intros Htail. induction lines as [|l ls IH];
    intros w d fuel HI E Hb Hall Hlen;
    (destruct fuel as [|fuel]; [lia|]).
  - unfold linesText in Hb. simpl in Hb.
    exists (withBuffer w s []), [], (mkData (username d) (lastActivity d) []).
    split; [reflexivity|]. split; [apply getData_withBuffer, E|].
    split; [reflexivity|].
    rewrite drainLines_S, E, Hb, (proj2 (indexOf_None LF tail) Htail).
    rewrite withBuffer_withBuffer, <- Hb, (withBuffer_same w s d E).
    reflexivity.
  - inversion Hall as [|? ? Hl Hls]; subst.
    rewrite linesText_cons in Hb.
    set (rest := linesText ls tail) in *.
    pose proof (getData_withBuffer w s d [] E) as E0.
    destruct (processCommand_soundLine toUpperCase (withBuffer w s []) s _
                l now (Inv_withBuffer w s [] HI) E0)
      as (w2 & o2 & E2 & I2 & B2 & _).
    destruct (B2 s _ E0) as [d2 [Ed2 Hb2]]. cbn [buffer] in Hb2.
    assert (Hlen' : List.length rest < fuel).
    { rewrite Hb, length_app in Hlen. simpl in Hlen. lia. }
    destruct (IH (withBuffer w2 s rest)
                (mkData (username d2) (lastActivity d2) rest) fuel
                (Inv_withBuffer w2 s rest I2)
                (getData_withBuffer w2 s d2 rest Ed2) eq_refl Hls Hlen')
      as (w3 & o3 & d3 & E3 & Ed3 & Hb3 & D3).
    rewrite withBuffer_withBuffer in E3.
    rewrite <- Hb2, (withBuffer_same w2 s d2 Ed2) in E3.
    exists w3, (o2 ++ o3), d3.
    split.
    { unfold processLines. cbn [forEach]. unfold bind.
      rewrite E2. fold (processLines toUpperCase s now ls).
      rewrite E3. reflexivity. }
    split; [exact Ed3|]. split; [exact Hb3|].
    rewrite drainLines_S, E, Hb, (indexOf_app LF l rest Hl),
      firstn_length_app, skipn_length_app.
    rewrite <- (withBuffer_stored w s d rest E).
    rewrite <- (withBuffer_withBuffer w s [] rest).
    rewrite (processCommand_buffer (withBuffer w s []) s _ l now rest E0).
    rewrite E2. cbn [liftBuffer]. rewrite D3. reflexivity.
Qed.

(** X14.  The complete lines of the input are handled in the order they
    arrived, each as [processCommand] handles it on its own, whatever
    else is waiting in the buffer: for a session whose buffer and decoded
    chunk together are the lines [lines], each with its newline, and an
    unfinished tail, the chunk leaves the state and the output of
    handling the lines one after the other, with the tail kept as the
    buffer, or, when the tail is longer than 4096 code units, with an
    empty buffer and a final [ERR message-too-long]. *)
Theorem lines_of_a_chunk_are_handled_in_order (w : World) (s : socket)
  (d : SessionData) (chunk : list byte) (lines : list jsstring)
  (tail : jsstring) (now : Z) :
  Inv w -> getData w s = Some d ->
  buffer d ++ toString_utf8 chunk = linesText lines tail ->
  Forall (fun l => ~ In LF l) lines -> ~ In LF tail ->
  exists w' o,
    processLines toUpperCase s now lines (withBuffer w s [])
    = Some (tt, w', o)
    /\ onData toUpperCase s chunk now w
       = if 4096 <? List.length tail
         then Some (tt, withBuffer w' s [],
                    o ++ reply s "ERR message-too-long")
         else Some (tt, withBuffer w' s tail, o).
Proof.
  intros HI E Htext Hall Htail.
  set (d1 := mkData (username d) (lastActivity d)
               (buffer d ++ toString_utf8 chunk)).
  assert (HI1 : Inv (setData w s d1))
    by (apply (Inv_setData w s d d1 HI E); reflexivity).
  destruct (drainLines_lines s now tail Htail lines (setData w s d1) d1
              (S (List.length (buffer d ++ toString_utf8 chunk)))
              HI1 (getData_setData_same w s d1) Htext Hall
              (Nat.lt_succ_diag_r _))
    as (w' & o & d' & EL & Ed' & Hb' & ED).
  replace (withBuffer (setData w s d1) s []) with (withBuffer w s []) in EL.
  2:{ unfold d1. rewrite <- (withBuffer_stored w s d _ E).
      symmetry. apply withBuffer_withBuffer. }
  exists w', o. split; [exact EL|].
  rewrite (onData_stored toUpperCase s chunk now w d E). fold d1.
  rewrite ED, (getData_withBuffer w' s d' tail Ed'). cbn [buffer].
  destruct (4096 <? List.length tail); [|reflexivity].
  rewrite <- (withBuffer_withBuffer w' s tail []).
  rewrite (withBuffer_stored (withBuffer w' s tail) s _ []
             (getData_withBuffer w' s d' tail Ed')).
  reflexivity.
Qed.

End Lines.

Lemma lines_of_a_chunk_are_handled_in_order_witness :
  onData asciiUpper 2
    (lineOf "LOGIN carol" ++ lineOf "WHO" ++ bytesOf "MS") 9 chat
  = liftBuffer 2 (lit "MS")
      (processLines asciiUpper 2 9 [lit "LOGIN carol"; lit "WHO"]
         (withBuffer chat 2 [])).
Proof.
  destruct (lines_of_a_chunk_are_handled_in_order asciiUpper chat 2
              (anonymous 0)
              (lineOf "LOGIN carol" ++ lineOf "WHO" ++ bytesOf "MS")
              [lit "LOGIN carol"; lit "WHO"] (lit "MS") 9 chat_Inv eq_refl
              eq_refl)
    as (w' & o & EL & ED).
  - repeat constructor; vm_compute; intuition discriminate.
  - vm_compute. intuition discriminate.
  - rewrite EL. exact ED.
Defined.

(* ================================================================== *)
(** ** The text of a MSG *)

Lemma trimStart_nil (x : jsstring) :
  trimStart x = [] -> Forall (fun c => isWhiteSpace c = true) x.
Proof.
  induction x as [|c r IH]; [constructor|]. cbn [trimStart].
  destruct (isWhiteSpace c) eqn:W; [|discriminate].
  intros H. constructor; [exact W | exact (IH H)].
Qed.

Lemma trim_nil (x : jsstring) :
  trim x = [] -> Forall (fun c => isWhiteSpace c = true) x.
Proof.
  unfold trim, trimEnd. intros H.
  apply (f_equal (@rev N)) in H. rewrite rev_involutive in H. simpl in H.
  apply trimStart_nil in H. apply Forall_rev in H.
  rewrite rev_involutive in H.
  destruct (trimStart x) as [|c r] eqn:Hx; [apply trimStart_nil, Hx|].
  apply trimStart_head in Hx. inversion H; subst. congruence.
Qed.

(** What follows a space in a trimmed line is not blank. *)
Lemma trimmed_remainder_not_blank (line p rest : jsstring) :
  trim line = p ++ SP :: rest -> trim rest <> [].
Proof.
  intros Ht Hr. apply trim_nil in Hr.
  destruct (rev rest) as [|c r] eqn:Hrev.
  - apply (f_equal (@rev N)) in Hrev. rewrite rev_involutive in Hrev.
    simpl in Hrev. subst rest.
    apply (trim_not_ending_in_space line p). exact Ht.
  - assert (Hc : isWhiteSpace c = true).
    { apply Forall_rev in Hr. rewrite Hrev in Hr. inversion Hr; auto. }
    unfold trim, trimEnd in Ht. apply (f_equal (@rev N)) in Ht.
    rewrite rev_involutive, rev_app_distr in Ht. cbn [rev] in Ht.
    rewrite Hrev in Ht. cbn [app] in Ht.
    apply trimStart_head in Ht. congruence.
Qed.

(** X15.  From a logged-in session, a line whose first token upper-cases
    to [MSG] and which has anything after it is always broadcast, never
    refused as empty: the text is what follows the first space of the
    trimmed line, with its spacing kept and only leading whitespace
    removed, it is never blank, and [MSG u <text>] is written to every
    socket of the username index. *)
Theorem msg_line_with_text_is_always_broadcast
  (toUpperCase : jsstring -> jsstring) (w : World) (s : socket)
  (d : SessionData) (u line verb rest : jsstring) (now : Z) :
  Inv w -> getData w s = Some d -> username d = Some u ->
  trim line = verb ++ SP :: rest -> ~ In SP verb ->
  toUpperCase verb = lit "MSG" ->
  trim rest <> []
  /\ processCommand toUpperCase s line now w
     = Some (tt, touched w s now,
             deliver (lit "MSG " ++ u ++ lit " " ++ trim rest)
               (recipients None (clients w))).
Proof.
  intros HI E Hu Ht Hv Hup.
  pose proof (trimmed_remainder_not_blank line verb rest Ht) as Hnb.
  split; [exact Hnb|].
  rewrite (processCommand_msg toUpperCase s line now w verb rest Ht Hv Hup).
  pose proof (getData_touched w s d now E) as E1.
  rewrite (handleMessage_fanout (touched w s now) s _ rest E1).
  - unfold usernameText. cbn [username]. rewrite Hu, clients_touched.
    reflexivity.
  - unfold loggedIn. cbn [username]. rewrite Hu.
    apply valid_truthy, (inv_valid w HI s d u E Hu).
  - destruct (blank rest) eqn:B; [|reflexivity].
    apply blank_trim in B. contradiction.
Qed.

Lemma msg_line_with_text_is_always_broadcast_witness :
  processCommand asciiUpper 1 (lit "msg   hi   all ") 9 chat
  = Some (tt, touched chat 1 9,
          [Write 0 (lit "MSG bob hi   all" ++ [LF]);
           Write 1 (lit "MSG bob hi   all" ++ [LF])]).
Proof.
  refine (eq_trans
            (proj2 (msg_line_with_text_is_always_broadcast asciiUpper chat 1
                      (named "bob" 2) (lit "bob") (lit "msg   hi   all ")
                      (lit "msg") (lit "  hi   all") 9 chat_Inv eq_refl
                      eq_refl eq_refl _ eq_refl)) _).
  - vm_compute. intuition discriminate.
  - reflexivity.
Defined.

(* ================================================================== *)
(** ** What closes a connection *)

Lemma writesOnly_nil : writesOnly [].
Proof. intros e []. Qed.

Lemma writesOnly_app o1 o2 :
  writesOnly o1 -> writesOnly o2 -> writesOnly (o1 ++ o2).
Proof.
  intros H1 H2 e Hin. apply in_app_or in Hin. destruct Hin; auto.
Qed.

Lemma writesOnly_deliver message to : writesOnly (deliver message to).
Proof.
  intros e Hin. apply In_deliver in Hin. destruct Hin as [t [_ ->]]. eauto.
Qed.

Lemma writesOnly_write t m : writesOnly [Write t m].
Proof. intros e [<-|[]]. eauto. Qed.

Lemma writesOnly_departure w s notify : writesOnly (departure w s notify).
Proof.
  unfold departure. destruct (getData w s); [|apply writesOnly_nil].
  destruct (_ && _); [apply writesOnly_deliver | apply writesOnly_nil].
Qed.

Lemma handleLogin_writesOnly s u w a w' o :
  handleLogin s u w = Some (a, w', o) -> writesOnly o.
Proof.
  unfold handleLogin, bind, getW, putW, sendToSocket, emit.
  cbn beta iota.
  destruct (getData w s) as [d|]; [|discriminate].
  destruct (loggedIn d);
    [intros H; injection H as _ _ <-; apply writesOnly_write|].
  destruct (negb (isValidUsername u));
    [intros H; injection H as _ _ <-; apply writesOnly_write|].
  destruct (JsMap.has str_eqb (clients w) u);
    [intros H; injection H as _ _ <-; apply writesOnly_write|].
  rewrite broadcast_run. intros H; injection H as _ _ <-.
  apply (writesOnly_app [_]); [apply writesOnly_write|].
  apply (writesOnly_app [] _ writesOnly_nil).
  apply writesOnly_deliver.
Qed.

Lemma handleMessage_writesOnly s t w a w' o :
  handleMessage s t w = Some (a, w', o) -> writesOnly o.
Proof.
  unfold handleMessage, bind, getW, sendToSocket, emit. cbn beta iota.
  destruct (getData w s) as [d|]; [|discriminate].
  destruct (negb (loggedIn d));
    [intros H; injection H as _ _ <-; apply writesOnly_write|].
  destruct (negb (truthy t) || (List.length (trim t) =? 0));
    [intros H; injection H as _ _ <-; apply writesOnly_write|].
  rewrite broadcast_run. intros H; injection H as _ _ <-.
  apply writesOnly_deliver.
Qed.

Lemma handleWho_writesOnly s w a w' o :
  handleWho s w = Some (a, w', o) -> writesOnly o.
Proof.
  unfold handleWho, bind, getW. cbn beta iota.
  destruct (getData w s) as [d|]; [|discriminate].
  destruct (negb (loggedIn d));
    [intros H; injection H as _ _ <-; apply writesOnly_write|].
  destruct (List.length (JsMap.keys (clients w)) =? 0);
    [intros H; injection H as _ _ <-; apply writesOnly_write|].
  rewrite forEach_user. intros H; injection H as _ _ <-.
  intros e Hin. apply in_map_iff in Hin. destruct Hin as [x [<- _]]. eauto.
Qed.

Lemma handleDirectMessage_writesOnly s target text w a w' o :
  handleDirectMessage s target text w = Some (a, w', o) -> writesOnly o.
Proof.
  unfold handleDirectMessage, sendPrivateMessage, bind, getW, sendToSocket,
    emit. cbn beta iota.
  destruct (getData w s) as [d|]; [|discriminate].
  destruct (negb (loggedIn d));
    [intros H; injection H as _ _ <-; apply writesOnly_write|].
  destruct (negb (truthy target) || negb (truthy text));
    [intros H; injection H as _ _ <-; apply writesOnly_write|].
  destruct (str_eqb target (usernameText d));
    [intros H; injection H as _ _ <-; apply writesOnly_write|].
  destruct (JsMap.get str_eqb (clients w) target);
    intros H; injection H as _ _ <-.
  - apply (writesOnly_app [_] [_]); apply writesOnly_write.
  - apply writesOnly_write.
Qed.

Section Closing.

Variable toUpperCase : jsstring -> jsstring.

Lemma processCommand_writesOnly s line now w a w' o :
  processCommand toUpperCase s line now w = Some (a, w', o) -> writesOnly o.
Proof.
  unfold processCommand. cbv zeta.
  destruct (truthy (trim line)); cbn [negb];
    [|intros H; injection H as _ _ <-; apply writesOnly_nil].
  rewrite bind_updateActivity.
  repeat match goal with
  | |- (if ?c then _ else _) _ = _ -> _ => destruct c
  end;
    first
      [ intros H; injection H as _ _ <-; apply writesOnly_write
      | apply handleLogin_writesOnly
      | apply handleMessage_writesOnly
      | apply handleWho_writesOnly
      | apply handleDirectMessage_writesOnly ].
Qed.

Lemma drainLines_writesOnly fuel s now :
  forall w a w' o,
    drainLines toUpperCase fuel s now w = Some (a, w', o) -> writesOnly o.
Proof.
  induction fuel as [|fuel IH]; intros w a w' o Hrun; [discriminate|].
  rewrite drainLines_S in Hrun.
  destruct (getData w s) as [d|]; [|discriminate].
  destruct (indexOf LF (buffer d)) as [i|];
    [|injection Hrun as _ _ <-; apply writesOnly_nil].
  destruct (processCommand _ _ _ _ _) as [[[[] w2] o2]|] eqn:E2;
    [|discriminate].
  destruct (drainLines _ _ _ _ _) as [[[[] w3] o3]|] eqn:E3; [|discriminate].
  injection Hrun as _ _ <-. apply writesOnly_app.
  - apply (processCommand_writesOnly _ _ _ _ _ _ _ E2).
  - apply (IH _ _ _ _ E3).
Qed.

Lemma onData_writesOnly s chunk now w a w' o :
  onData toUpperCase s chunk now w = Some (a, w', o) -> writesOnly o.
Proof.
  destruct (getData w s) as [d|] eqn:E.
  2:{ unfold onData, bind, getW. rewrite E.
      intros H; injection H as _ _ <-. apply writesOnly_nil. }
  rewrite (onData_stored toUpperCase s chunk now w d E).
  destruct (drainLines _ _ _ _ _) as [[[[] w2] o2]|] eqn:E2; [|discriminate].
  pose proof (drainLines_writesOnly _ _ _ _ _ _ _ E2) as H2.
  destruct (getData w2 s) as [d2|]; [|discriminate].
  destruct (4096 <? List.length (buffer d2));
    intros H; injection H as _ _ <-; [|exact H2].
  apply writesOnly_app; [exact H2 | apply writesOnly_write].
Qed.

(** X16.  Only the idle timer and the interrupt signal close
    connections: the handling of a new connection, of a chunk of data
    (whatever commands and errors it holds, an over-long input included),
    and of the end or an error of a socket writes lines to sockets and
    does nothing else, and so does any other error of the listening
    server than the one below.  A socket is destroyed only by its own
    idle timer or, being stored, by the interrupt signal; the listening
    server is closed only by the interrupt signal; and the process exits
    only on the interrupt signal, with code 0, or on an error of the
    listening server that says the port is in use, with code 1. *)
Theorem only_timer_and_signal_close_connections (w : World) (e : event)
  (w' : World) (o : list effect) :
  handle toUpperCase e w = Some (tt, w', o) ->
  (e <> Sigint -> (forall s now, e <> Interval s now) ->
   e <> ServerError (Some (lit "EADDRINUSE")) -> writesOnly o)
  /\ (forall s, In (Destroy s) o ->
        (exists now, e = Interval s now)
        \/ (e = Sigint /\ getData w s <> None))
  /\ (In CloseServer o -> e = Sigint)
  /\ (forall c, In (Exit c) o ->
        (e = Sigint /\ c = 0%Z)
        \/ (e = ServerError (Some (lit "EADDRINUSE")) /\ c = 1%Z)).
Proof.
  intros Hrun.
  assert (Hw : e <> Sigint -> (forall s now, e <> Interval s now) ->
               e <> ServerError (Some (lit "EADDRINUSE")) -> writesOnly o).
  { intros H1 H2 H3.
    destruct e as [now|s chunk now|s|s|s now| |code]; simpl in Hrun.
    - rewrite onConnect_run in Hrun. injection Hrun as _ <-.
      apply writesOnly_nil.
    - apply (onData_writesOnly _ _ _ _ _ _ _ Hrun).
    - unfold onEnd in Hrun. rewrite removeUser_run in Hrun.
      injection Hrun as _ <-. apply writesOnly_departure.
    - unfold onError in Hrun. rewrite removeUser_run in Hrun.
      injection Hrun as _ <-. apply writesOnly_departure.
    - exfalso. apply (H2 s now). reflexivity.
    - contradiction.
    - destruct (onServerError_run code w) as (o1 & E & Ho).
      rewrite E in Hrun. injection Hrun as _ <-.
      destruct Ho as [->|[_ ->]]; [apply writesOnly_nil | contradiction]. }
  assert (Hint : forall s now o1,
            onInterval s now w = Some (tt, w', o1) ->
            forall x, In x o1 -> x = Destroy s \/ exists t m, x = Write t m).
  { intros s now o1. unfold onInterval, bind, getW, sendToSocket, emit.
    destruct (getData w s) as [d|];
      [|intros H; injection H as _ <-; intros x []].
    destruct (IDLE_TIMEOUT_MS <? now - lastActivity d)%Z;
      [|intros H; injection H as _ <-; intros x []].
    rewrite removeUser_run. intros H; injection H as _ <-.
    intros x Hx. cbn [app] in Hx. destruct Hx as [<-|Hx]; [eauto|].
    apply in_app_or in Hx.
    destruct Hx as [Hx|[<-|[]]]; [|auto].
    right. apply (writesOnly_departure w s true x Hx). }
  assert (Hsig : e = Sigint ->
            forall x, In x o ->
              (exists t m, x = Write t m)
              \/ (exists s, x = Destroy s /\ getData w s <> None)
              \/ x = CloseServer \/ x = Exit 0).
  { intros ->. simpl in Hrun. rewrite onSigint_run in Hrun.
    injection Hrun as _ <-. intros x Hin.
    unfold shutdownEffects in Hin. apply in_app_or in Hin.
    destruct Hin as [Hin|Hin].
    - left. apply (writesOnly_deliver _ _ x Hin).
    - apply in_app_or in Hin. destruct Hin as [Hin|[<-|[<-|[]]]]; auto.
      right. left. apply in_map_iff in Hin. destruct Hin as [t [<- Hin]].
      exists t. split; [reflexivity|]. apply In_keys_getData in Hin.
      destruct Hin as [d Hd]. congruence. }
  assert (Hsrv : forall code,
            e = ServerError code ->
            forall x, In x o ->
              x = Exit 1 /\ code = Some (lit "EADDRINUSE")).
  { intros code ->. simpl in Hrun.
    destruct (onServerError_run code w) as (o1 & E & Ho).
    rewrite E in Hrun. injection Hrun as _ <-. intros x Hin.
    destruct Ho as [->|[-> Hc]]; [contradiction|].
    destruct Hin as [<-|[]]. auto. }
  assert (Hcase : forall x, In x o ->
            (forall t m, x <> Write t m) ->
            (exists s now, e = Interval s now /\ x = Destroy s)
            \/ (e = Sigint
                /\ ((exists s, x = Destroy s /\ getData w s <> None)
                    \/ x = CloseServer \/ x = Exit 0))
            \/ (e = ServerError (Some (lit "EADDRINUSE")) /\ x = Exit 1)).
  { intros x Hin Hnw.
    destruct e as [now|s0 chunk now|s0|s0|s0 now| |code].
    1-4: (exfalso;
          destruct (Hw ltac:(discriminate) ltac:(discriminate)
                      ltac:(discriminate) x Hin) as (t & m & Heq);
          apply (Hnw t m Heq)).
    - left. exists s0, now. split; [reflexivity|].
      destruct (Hint s0 now o Hrun x Hin) as [Heq|(t & m & Heq)];
        [exact Heq | exfalso; apply (Hnw t m Heq)].
    - right. left. split; [reflexivity|].
      destruct (Hsig eq_refl x Hin) as [(t & m & Heq)|H];
        [exfalso; apply (Hnw t m Heq) | exact H].
    - right. right. destruct (Hsrv code eq_refl x Hin) as [-> ->]. auto. }
  split; [exact Hw|]. split; [|split].
  - intros s Hin.
    destruct (Hcase _ Hin ltac:(discriminate))
      as [(s0 & now & -> & Heq)|[[-> H]|[_ Heq]]].
    + injection Heq as ->. eauto.
    + right. split; [reflexivity|].
      destruct H as [(s0 & Heq & Hs)|[Heq|Heq]]; try discriminate.
      injection Heq as ->. exact Hs.
    + discriminate.
  - intros Hin.
    destruct (Hcase _ Hin ltac:(discriminate))
      as [(s0 & now & _ & Heq)|[[-> _]|[_ Heq]]];
      [discriminate | reflexivity | discriminate].
  - intros c Hin.
    destruct (Hcase _ Hin ltac:(discriminate))
      as [(s0 & now & _ & Heq)|[[-> H]|[-> Heq]]].
    + discriminate.
    + left. split; [reflexivity|].
      destruct H as [(s0 & Heq & _)|[Heq|Heq]]; try discriminate.
      injection Heq as ->. reflexivity.
    + right. split; [reflexivity|]. injection Heq as ->. reflexivity.
Qed.

End Closing.

Lemma only_timer_and_signal_close_connections_witness :
  writesOnly [Write 2 (lit "ERR not-logged-in" ++ [LF])].
Proof.
  refine (proj1 (only_timer_and_signal_close_connections asciiUpper chat
                   (Data 2 (lineOf "MSG hi") 9) (touched chat 2 9) _
                   eq_refl) _ _ _);
    discriminate.
Defined.

(* ================================================================== *)
(** ** Commands with too few tokens *)

(** X17.  A [LOGIN], [MSG] or [DM] line with too few tokens is refused
    with the error of its command before the session is looked at, so
    also for a session that is not logged in or logged in already:
    [LOGIN] alone gives [ERR missing-username], [MSG] alone
    [ERR empty-message], and [DM] alone or with a target and no text
    [ERR invalid-dm-format].  Nothing else is written and only the
    activity stamp of the socket changes. *)
Theorem short_command_is_refused_before_the_login_check
  (toUpperCase : jsstring -> jsstring) (w : World) (s : socket)
  (line verb : jsstring) (now : Z) :
  verb <> [] -> ~ In SP verb ->
  (trim line = verb -> toUpperCase verb = lit "LOGIN" ->
   processCommand toUpperCase s line now w
   = Some (tt, touched w s now, reply s "ERR missing-username"))
  /\ (trim line = verb -> toUpperCase verb = lit "MSG" ->
      processCommand toUpperCase s line now w
      = Some (tt, touched w s now, reply s "ERR empty-message"))
  /\ (trim line = verb -> toUpperCase verb = lit "DM" ->
      processCommand toUpperCase s line now w
      = Some (tt, touched w s now, reply s "ERR invalid-dm-format"))
  /\ (forall target,
        trim line = verb ++ SP :: target -> ~ In SP target ->
        toUpperCase verb = lit "DM" ->
        processCommand toUpperCase s line now w
        = Some (tt, touched w s now, reply s "ERR invalid-dm-format")).
Proof.
  intros Hne Hv. split; [|split; [|split]].
  - intros Ht Hup.
    apply (processCommand_bare toUpperCase s line now w verb _ Ht Hne Hv).
    left. auto.
  - intros Ht Hup.
    apply (processCommand_bare toUpperCase s line now w verb _ Ht Hne Hv).
    right. left. auto.
  - intros Ht Hup.
    apply (processCommand_bare toUpperCase s line now w verb _ Ht Hne Hv).
    right. right. auto.
  - intros target Ht Htg Hup.
    apply (processCommand_dm_short toUpperCase s line now w verb target
             Ht Hv Htg Hup).
Qed.

Lemma short_command_is_refused_before_the_login_check_witness :
  processCommand asciiUpper 2 (lit "dm alice") 9 chat
  = Some (tt, touched chat 2 9, reply 2 "ERR invalid-dm-format").
Proof.
  refine (proj2 (proj2 (proj2
            (short_command_is_refused_before_the_login_check asciiUpper chat
               2 (lit "dm alice") (lit "dm") 9 _ _)))
            (lit "alice") eq_refl _ eq_refl).
  - discriminate.
  - vm_compute. intuition discriminate.
  - vm_compute. intuition discriminate.
Defined.
